(** * connections.mjs: one shared WebSocket, correlated request/response

    A shallow embedding of [assets/js/connections.mjs].  The module keeps four
    module-level variables ([websocket], [connectionPromise], [messageHandlers],
    [messageId]) and reacts to calls of its three exported operations and to
    the events the browser delivers to the handlers it installs.  JavaScript
    runs those reactions one at a time, each to completion, so the module is
    modelled as a transition system: a [State], and one total function per
    reaction that maps a state to the next state and the effects it emitted.

    What is taken from the platform rather than from the module:
    - [JSON.parse] is applied already: a message event carries either text
      that does not parse or the parsed value;
    - [JSON.stringify] either encodes the payload or throws;
    - [new Error(x)] converts [x] to a string, which throws for a parsed
      object that has a property named [toString] of its own;
    - [new WebSocket(WSS_URL)] returns a transport in state CONNECTING;
    - a suspended [async] body continues at some later point after the
      promise it awaits has settled; the order in which the browser runs
      such continuations, events and timers is left open, so every schedule
      a browser can produce is a run of the model. *)

From Stdlib Require Import Sorted.
From stdpp Require Import base gmap list strings pretty.

#[local] Set Warnings "-register-all".
#[local] Open Scope Z_scope.

(** ** JavaScript values *)

(** The values [JSON.parse] produces, plus [undefined] (the value of a missing
    property).  A number is either an integer-valued double [JInt z] (with [-0]
    identified with [0]: both are falsy and both are the same [Map] key) or some
    other double [JNonInt] (a fraction or an infinity), which is never falsy
    and never equal to a key of [messageHandlers].  [JObj] lists the own
    properties of an object, each name once. *)
Inductive JsValue : Type :=
  | JUndefined
  | JNull
  | JBool (b : bool)
  | JInt (z : Z)
  | JNonInt (tag : nat)
  | JStr (s : string)
  | JArr (items : list JsValue)
  | JObj (fields : list (string * JsValue)).

(** ToBoolean, as used by [if (message.error)] and [message.id && ...]. *)
Definition truthy (v : JsValue) : bool :=
  match v with
  | JUndefined | JNull => false
  | JBool b => b
  | JInt z => negb (z =? 0)%Z
  | JNonInt _ => true
  | JStr s => negb (String.eqb s "")
  | JArr _ | JObj _ => true
  end.

(** [undefined] and [null] are the two values on which a property read throws. *)
Definition nullish (v : JsValue) : bool :=
  match v with
  | JUndefined | JNull => true
  | _ => false
  end.

Fixpoint own_property (k : string) (fs : list (string * JsValue)) : option JsValue :=
  match fs with
  | [] => None
  | (k', v) :: rest => if String.eqb k k' then Some v else own_property k rest
  end.

(** [v.k] for a value that is not nullish, for the three names the module
    reads ([id], [error], [payload]): an object yields its own property or
    [undefined]; primitives and arrays have no such property. *)
Definition member (v : JsValue) (k : string) : JsValue :=
  match v with
  | JObj fs => default JUndefined (own_property k fs)
  | _ => JUndefined
  end.

(** Whether converting [v] to a string throws.  [new Error(x)] converts [x]
    to a string.  For a parsed object the conversion first looks up
    [toString]: an own property of that name is never a function, the
    inherited [valueOf] returns the object itself, and the conversion ends
    in a TypeError; without such a property the inherited [toString]
    answers.  An array is joined, which converts each of its elements in
    turn.  Primitive values always convert. *)
Fixpoint to_string_throws (v : JsValue) : bool :=
  match v with
  | JArr items => existsb to_string_throws items
  | JObj fields =>
    match own_property "toString" fields with
    | Some _ => true
    | None => false
    end
  | _ => false
  end.

(** What a promise can be rejected with in this module: an object built by
    [new Error(x)] (its message is the string conversion of [x], which is [x]
    itself when [x] is a string), the event object the browser hands to
    [onerror], or the [TypeError] that [JSON.stringify] throws. *)
Inductive Reason : Type :=
  | NewError (message : JsValue)
  | ErrorEvent (tag : nat)
  | TypeError (tag : nat).

Inductive Settlement : Type :=
  | Pending
  | Fulfilled (v : JsValue)
  | Rejected (r : Reason).

(** [resolve]/[reject] of a promise only act on a pending promise. *)
Definition settle (p : nat) (o : Settlement) (ps : list Settlement) : list Settlement :=
  match ps !! p with
  | Some Pending => <[p := o]> ps
  | _ => ps
  end.

(** ** The transport and the runtime *)

Inductive ReadyState : Type := CONNECTING | OPEN | CLOSING | CLOSED.

Definition is_open (r : ReadyState) : bool :=
  match r with OPEN => true | _ => false end.

(** A [WebSocket] instance: its [readyState], and the connection promise whose
    [resolve] and [reject] the handlers installed on it have captured. *)
Record Socket : Type := mkSocket { readyState : ReadyState; attempt : nat }.

(** The [payload] argument of [sendRequest]: a value [JSON.stringify] can
    encode, or one on which it throws (a cyclic object, a BigInt). *)
Inductive Payload : Type :=
  | Serializable (v : JsValue)
  | Unserializable (tag : nat).

(** The object [{ id, type, payload }] handed to [JSON.stringify]. *)
Record Frame : Type := mkFrame { f_id : Z; f_type : string; f_payload : JsValue }.

(** [event.data] of a message event: text that [JSON.parse] rejects, or the
    value it returns. *)
Inductive Data : Type :=
  | Unparsable
  | Parsed (message : JsValue).

(** A timer armed by [setTimeout]: its callback has captured [id], [type] and
    the [reject] of the request's promise. *)
Record Timer : Type := mkTimer
  { tm_delay : Z; tm_id : Z; tm_type : string; tm_future : nat }.

(** A [sendRequest] body suspended at [await openWebSocket()]. *)
Record Suspended : Type := mkSuspended
  { sr_future : nat; sr_awaits : nat; sr_type : string; sr_payload : Payload }.

Inductive Level : Type := LLog | LWarn | LError.

(** What a reaction does to the outside world. *)
Inductive Effect : Type :=
  | Console (l : Level) (text : string)
  | NewWebSocket (url : string) (t : nat)
  | WsSend (t : nat) (frame : Frame)
  | WsClose (t : nat)
  | SetTimeout (delay : Z) (id : Z).

(** The four module variables, then the runtime objects they refer to.
    Promises are kept in two stores by allocation site: [connects] holds the
    promises created in [openWebSocket], [futures] those created in
    [sendRequest].  A handler [{ resolve, reject }] in [messageHandlers] is
    the index of its promise in [futures]. *)
Record State : Type := mkState
  { websocket : option nat;
    connectionPromise : option nat;
    messageHandlers : gmap Z nat;
    messageId : Z;
    connects : list Settlement;
    futures : list Settlement;
    sockets : list Socket;
    timers : list Timer;
    awaiting : list Suspended }.

Definition init : State :=
  {| websocket := None; connectionPromise := None;
     messageHandlers := ∅; messageId := 0;
     connects := []; futures := []; sockets := [];
     timers := []; awaiting := [] |}.

Definition WSS_URL : string := "wss://localhost:8443/wss".

(** [++messageId] on a double that holds an integer: exact below [2^53]; at
    [2^53] the sum rounds back to [2^53].  The counter starts at [0] and is
    only ever changed by this operation, so these are all its values. *)
Definition MAX_EXACT : Z := 2 ^ 53.

Definition js_incr (n : Z) : Z :=
  if (n <? MAX_EXACT)%Z then (n + 1)%Z else n.

(** ** Field updates *)

Definition with_connection (w c : option nat) (s : State) : State :=
  {| websocket := w; connectionPromise := c;
     messageHandlers := messageHandlers s; messageId := messageId s;
     connects := connects s; futures := futures s; sockets := sockets s;
     timers := timers s; awaiting := awaiting s |}.

Definition with_connects (cs : list Settlement) (s : State) : State :=
  {| websocket := websocket s; connectionPromise := connectionPromise s;
     messageHandlers := messageHandlers s; messageId := messageId s;
     connects := cs; futures := futures s; sockets := sockets s;
     timers := timers s; awaiting := awaiting s |}.

Definition with_futures (fs : list Settlement) (s : State) : State :=
  {| websocket := websocket s; connectionPromise := connectionPromise s;
     messageHandlers := messageHandlers s; messageId := messageId s;
     connects := connects s; futures := fs; sockets := sockets s;
     timers := timers s; awaiting := awaiting s |}.

Definition with_sockets (ws : list Socket) (s : State) : State :=
  {| websocket := websocket s; connectionPromise := connectionPromise s;
     messageHandlers := messageHandlers s; messageId := messageId s;
     connects := connects s; futures := futures s; sockets := ws;
     timers := timers s; awaiting := awaiting s |}.

Definition with_handlers (m : gmap Z nat) (s : State) : State :=
  {| websocket := websocket s; connectionPromise := connectionPromise s;
     messageHandlers := m; messageId := messageId s;
     connects := connects s; futures := futures s; sockets := sockets s;
     timers := timers s; awaiting := awaiting s |}.

Definition with_messageId (n : Z) (s : State) : State :=
  {| websocket := websocket s; connectionPromise := connectionPromise s;
     messageHandlers := messageHandlers s; messageId := n;
     connects := connects s; futures := futures s; sockets := sockets s;
     timers := timers s; awaiting := awaiting s |}.

Definition with_timers (ts : list Timer) (s : State) : State :=
  {| websocket := websocket s; connectionPromise := connectionPromise s;
     messageHandlers := messageHandlers s; messageId := messageId s;
     connects := connects s; futures := futures s; sockets := sockets s;
     timers := ts; awaiting := awaiting s |}.

Definition with_awaiting (a : list Suspended) (s : State) : State :=
  {| websocket := websocket s; connectionPromise := connectionPromise s;
     messageHandlers := messageHandlers s; messageId := messageId s;
     connects := connects s; futures := futures s; sockets := sockets s;
     timers := timers s; awaiting := a |}.

(** ** _handleWebSocketMessage *)

Definition msg_received : Effect := Console LLog "WebSocket message received:".
Definition msg_unmatched : Effect :=
  Console LWarn "Received WebSocket message with no matching handler or id:".
Definition msg_failed : Effect :=
  Console LError "Error parsing WebSocket message or no handler found:".

(** [message.id && messageHandlers.has(message.id)], returning the key and the
    handler found.  Keys are numbers, so only a number can be found. *)
Definition matching_handler (m : gmap Z nat) (id : JsValue) : option (Z * nat) :=
  if truthy id then
    match id with
    | JInt z => (λ h, (z, h)) <$> m !! z
    | _ => None
    end
  else None.

(** [if (message.error) handler.reject(new Error(message.error));
    else handler.resolve(message.payload)]: what the handler's promise is
    settled with, or [None] when [new Error(message.error)] throws before
    [reject] is called. *)
Definition response_outcome (message : JsValue) : option Settlement :=
  if truthy (member message "error") then
    if to_string_throws (member message "error") then None
    else Some (Rejected (NewError (member message "error")))
  else Some (Fulfilled (member message "payload")).

(** Reading [message.id] throws on [null], and [new Error(message.error)]
    can throw; either way control goes to the [catch] block, which only
    logs: nothing is settled and no entry is deleted. *)
Definition _handleWebSocketMessage (d : Data) (s : State) : State * list Effect :=
  match d with
  | Unparsable => (s, [msg_received; msg_failed])
  | Parsed message =>
    if nullish message then (s, [msg_received; msg_failed])
    else
      match matching_handler (messageHandlers s) (member message "id") with
      | Some (id, handler) =>
        match response_outcome message with
        | Some outcome =>
          (with_handlers (delete id (messageHandlers s))
             (with_futures (settle handler outcome (futures s)) s),
           [msg_received])
        | None => (s, [msg_received; msg_failed])
        end
      | None => (s, [msg_received; msg_unmatched])
      end
  end.

(** ** openWebSocket *)

(** The three ways through the executor of the new connection promise. *)
Inductive ExecutorBranch : Type := AlreadyOpen | AlreadyConnecting | Connect.

Definition executor_branch (s : State) : ExecutorBranch :=
  match websocket s with
  | Some t =>
    match readyState <$> sockets s !! t with
    | Some OPEN => AlreadyOpen
    | Some CONNECTING => AlreadyConnecting
    | _ => Connect
    end
  | None => Connect
  end.

(** The executor runs inside [new Promise(...)], before the new promise [p] is
    assigned to [connectionPromise]. *)
Definition executor (p : nat) (s : State) : State * list Effect :=
  match executor_branch s with
  | AlreadyOpen => (with_connects (settle p (Fulfilled JUndefined) (connects s)) s, [])
  | AlreadyConnecting =>
    (s, [Console LLog "WebSocket connection is already in progress."])
  | Connect =>
    let t := length (sockets s) in
    (with_connection (Some t) (connectionPromise s)
       (with_sockets (sockets s ++ [mkSocket CONNECTING p]) s),
     [Console LLog "Attempting to connect to WebSocket:"; NewWebSocket WSS_URL t])
  end.

Definition openWebSocket (s : State) : nat * State * list Effect :=
  match connectionPromise s with
  | Some p => (p, s, [])
  | None =>
    let p := length (connects s) in
    let '(s1, out) := executor p (with_connects (connects s ++ [Pending]) s) in
    (p, with_connection (websocket s1) (Some p) s1, out)
  end.

(** The handlers installed on the new transport; [p] is the promise whose
    [resolve] and [reject] they have captured. *)
Definition onopen (p : nat) (s : State) : State * list Effect :=
  (with_connects (settle p (Fulfilled JUndefined) (connects s)) s,
   [Console LLog "WebSocket connection established."]).

Definition onerror (p : nat) (error : nat) (s : State) : State * list Effect :=
  (with_connects (settle p (Rejected (ErrorEvent error)) (connects s))
     (with_connection None None s),
   [Console LError "WebSocket Error:"]).

Definition onclose (s : State) : State * list Effect :=
  (with_connection None None s,
   [Console LLog "WebSocket connection closed. It will attempt to reconnect on the next request."]).

(** ** sendRequest *)

(** The synchronous part: the request's promise is created, its executor runs
    up to [await openWebSocket()] and is suspended there.  The result is the
    promise returned to the caller. *)
Definition sendRequest (type : string) (payload : Payload) (s : State)
  : nat * State * list Effect :=
  let f := length (futures s) in
  let '(p, s1, out) := openWebSocket (with_futures (futures s ++ [Pending]) s) in
  (f, with_awaiting (awaiting s1 ++ [mkSuspended f p type payload]) s1, out).

Definition timeout_message (type : string) (id : Z) : string :=
  "Request '" +:+ type +:+ "' (id: " +:+ pretty id +:+ ") timed out.".

Definition TIMEOUT_MS : Z := 30000.

(** The body after the [await] has returned normally. *)
Definition sendRequest_connected (c : Suspended) (s : State) : State * list Effect :=
  match websocket s with
  | Some t =>
    if default false (is_open ∘ readyState <$> sockets s !! t) then
      let id := js_incr (messageId s) in
      let s1 :=
        with_handlers (<[id := sr_future c]> (messageHandlers s)) (with_messageId id s) in
      match sr_payload c with
      | Serializable v =>
        (with_timers (timers s1 ++ [mkTimer TIMEOUT_MS id (sr_type c) (sr_future c)]) s1,
         [WsSend t (mkFrame id (sr_type c) v);
          Console LLog "WebSocket request sent:";
          SetTimeout TIMEOUT_MS id])
      | Unserializable e =>
        (with_futures (settle (sr_future c) (Rejected (TypeError e)) (futures s1)) s1, [])
      end
    else
      (with_futures
         (settle (sr_future c) (Rejected (NewError (JStr "WebSocket is not connected.")))
            (futures s)) s, [])
  | None =>
    (with_futures
       (settle (sr_future c) (Rejected (NewError (JStr "WebSocket is not connected.")))
          (futures s)) s, [])
  end.

(** The [k]-th suspended body continues once the promise it awaits has
    settled: normally, or into the [catch] block with the rejection reason. *)
Definition sendRequest_resume (k : nat) (s : State) : State * list Effect :=
  match awaiting s !! k with
  | Some c =>
    match connects s !! sr_awaits c with
    | Some (Fulfilled _) => sendRequest_connected c (with_awaiting (delete k (awaiting s)) s)
    | Some (Rejected error) =>
      let s1 := with_awaiting (delete k (awaiting s)) s in
      (with_futures (settle (sr_future c) (Rejected error) (futures s1)) s1, [])
    | _ => (s, [])
    end
  | None => (s, [])
  end.

(** The callback given to [setTimeout], for the [k]-th armed timer. *)
Definition timeout_callback (tm : Timer) (s : State) : State * list Effect :=
  match messageHandlers s !! tm_id tm with
  | Some _ =>
    let s1 := with_handlers (delete (tm_id tm) (messageHandlers s)) s in
    (with_futures
       (settle (tm_future tm)
          (Rejected (NewError (JStr (timeout_message (tm_type tm) (tm_id tm)))))
          (futures s1)) s1, [])
  | None => (s, [])
  end.

(** ** closeWebSocket *)

(** [ws.close()]: a transport that is connecting or open starts closing. *)
Definition close_socket (k : Socket) : Socket :=
  match readyState k with
  | CONNECTING | OPEN => mkSocket CLOSING (attempt k)
  | _ => k
  end.

Definition closeWebSocket (s : State) : State * list Effect :=
  match websocket s with
  | Some t =>
    (with_connection None None
       (with_sockets (alter close_socket t (sockets s)) s),
     [Console LLog "Manually closing WebSocket connection."; WsClose t])
  | None => (s, [Console LLog "WebSocket is not connected, no action taken."])
  end.

(** ** The transition system *)

(** What can happen to the module: a caller invokes an exported operation,
    the browser delivers an event to the handlers of transport [t], an armed
    timer fires, or a suspended [sendRequest] body continues.  The browser
    delivers [open] only to a connecting transport and [message] only to an
    open one; [error] and [close] leave the transport closed. *)
Inductive Event : Type :=
  | Call_openWebSocket
  | Call_sendRequest (type : string) (payload : Payload)
  | Call_closeWebSocket
  | Ev_open (t : nat)
  | Ev_message (t : nat) (d : Data)
  | Ev_error (t : nat) (error : nat)
  | Ev_close (t : nat)
  | Ev_timer (k : nat)
  | Ev_resume (k : nat).

Definition set_readyState (t : nat) (r : ReadyState) (s : State) : State :=
  with_sockets (alter (λ k, mkSocket r (attempt k)) t (sockets s)) s.

Definition react (e : Event) (s : State) : State * list Effect :=
  match e with
  | Call_openWebSocket => let '(_, s', out) := openWebSocket s in (s', out)
  | Call_sendRequest type payload =>
    let '(_, s', out) := sendRequest type payload s in (s', out)
  | Call_closeWebSocket => closeWebSocket s
  | Ev_open t =>
    match sockets s !! t with
    | Some k =>
      match readyState k with
      | CONNECTING => onopen (attempt k) (set_readyState t OPEN s)
      | _ => (s, [])
      end
    | None => (s, [])
    end
  | Ev_message t d =>
    match sockets s !! t with
    | Some k => if is_open (readyState k) then _handleWebSocketMessage d s else (s, [])
    | None => (s, [])
    end
  | Ev_error t error =>
    match sockets s !! t with
    | Some k => onerror (attempt k) error (set_readyState t CLOSED s)
    | None => (s, [])
    end
  | Ev_close t =>
    match sockets s !! t with
    | Some _ => onclose (set_readyState t CLOSED s)
    | None => (s, [])
    end
  | Ev_timer k =>
    match timers s !! k with
    | Some tm => timeout_callback tm (with_timers (delete k (timers s)) s)
    | None => (s, [])
    end
  | Ev_resume k => sendRequest_resume k s
  end.

Definition step (e : Event) (s : State) : State := (react e s).1.

(** A run: the state after a list of events, and everything emitted. *)
Fixpoint run (es : list Event) (s : State) : State * list Effect :=
  match es with
  | [] => (s, [])
  | e :: rest =>
    let '(s1, out1) := react e s in
    let '(s2, out2) := run rest s1 in
    (s2, out1 ++ out2)
  end.

Inductive reachable : State → Prop :=
  | reachable_init : reachable init
  | reachable_step s e : reachable s → reachable (step e s).

(** The identifiers of the frames handed to [websocket.send], in order. *)
Definition sent_ids (out : list Effect) : list Z :=
  omap (λ e, match e with WsSend _ fr => Some (f_id fr) | _ => None end) out.

(** The transports created, in order. *)
Definition created (out : list Effect) : list nat :=
  omap (λ e, match e with NewWebSocket _ t => Some t | _ => None end) out.

(** Whether event [e] in state [s] takes a [sendRequest] body past both of
    its guards, to the line [const id = ++messageId]. *)
Definition reaches_registration (e : Event) (s : State) : bool :=
  match e with
  | Ev_resume k =>
    match awaiting s !! k with
    | Some c =>
      match connects s !! sr_awaits c, websocket s with
      | Some (Fulfilled _), Some t =>
        default false (is_open ∘ readyState <$> sockets s !! t)
      | _, _ => false
      end
    | None => false
    end
  | _ => false
  end.

(** ** Invariants *)

(** What every reachable state satisfies, as far as the correlator is
    concerned.  It only speaks of [messageHandlers], [messageId], [futures],
    [timers] and [awaiting]. *)
Record ReqInv (s : State) : Prop := mkReqInv
  { req_counter : 0 ≤ messageId s ≤ MAX_EXACT;
    req_keys : ∀ id h, messageHandlers s !! id = Some h → 1 ≤ id ≤ messageId s;
    req_handler_lt :
      ∀ id h, messageHandlers s !! id = Some h → (h < length (futures s))%nat;
    req_inj :
      ∀ id id' h, messageHandlers s !! id = Some h →
                  messageHandlers s !! id' = Some h → id = id';
    req_timer_meta :
      ∀ tm, tm ∈ timers s →
        1 ≤ tm_id tm ≤ messageId s ∧ tm_delay tm = TIMEOUT_MS ∧
        (tm_future tm < length (futures s))%nat;
    req_timer_nodup : NoDup (tm_future <$> timers s);
    req_timer_key :
      ∀ tm id, tm ∈ timers s →
        messageHandlers s !! id = Some (tm_future tm) → id = tm_id tm;
    req_timer_pending :
      ∀ tm, tm ∈ timers s →
        messageHandlers s !! tm_id tm = Some (tm_future tm) →
        futures s !! tm_future tm = Some Pending;
    req_await_nodup : NoDup (sr_future <$> awaiting s);
    req_await_pending :
      ∀ c, c ∈ awaiting s → futures s !! sr_future c = Some Pending;
    req_await_handler :
      ∀ c id, c ∈ awaiting s → messageHandlers s !! id ≠ Some (sr_future c);
    req_await_timer :
      ∀ c tm, c ∈ awaiting s → tm ∈ timers s → tm_future tm ≠ sr_future c }.

(** What every reachable state satisfies, as far as the connection is
    concerned.  It only speaks of [websocket], [connectionPromise], [connects]
    and [sockets]: the two variables are null together; every transport has
    its own connection promise, and that promise is pending while the
    transport is connecting. *)
Record ConnInv (s : State) : Prop := mkConnInv
  { conn_both : websocket s = None ↔ connectionPromise s = None;
    conn_attempt_lt : ∀ k, k ∈ sockets s → (attempt k < length (connects s))%nat;
    conn_attempt_nodup : NoDup (attempt <$> sockets s);
    conn_connecting :
      ∀ k, k ∈ sockets s → readyState k = CONNECTING →
           connects s !! attempt k = Some Pending }.

Definition Inv (s : State) : Prop := ConnInv s ∧ ReqInv s.

(** The timer armed for an identifier belongs to the request registered
    under that identifier. *)
Definition OwnTimer (s : State) : Prop :=
  ∀ tm h, tm ∈ timers s → messageHandlers s !! tm_id tm = Some h → h = tm_future tm.

(** ** Scenarios and observations *)

(** The first request of a session, up to the point where its frame has
    been sent. *)
Definition token_request : list Event :=
  [Call_sendRequest "getToken" (Serializable (JObj [("user", JStr "a")]));
   Ev_open 0%nat; Ev_resume 0%nat].

(** Two requests are pending on an open connection: identifiers 1 and 2,
    promises 0 and 1. *)
Definition two_pending : State :=
  (run [Call_sendRequest "first" (Serializable JNull); Ev_open 0%nat; Ev_resume 0%nat;
        Call_sendRequest "second" (Serializable JNull); Ev_resume 0%nat] init).1.

(** A third request is suspended while two are pending. *)
Definition third_suspended : State :=
  step (Call_sendRequest "third" (Serializable JNull)) two_pending.


(** One request on an established connection, up to the point where its
    frame has been sent. *)
Definition round_trip : list Event :=
  [Call_sendRequest "ping" (Serializable JNull); Ev_resume 0%nat].

(** The connection is established and no [sendRequest] body is suspended. *)
Definition idle_open (s : State) : Prop :=
  websocket s = Some 0%nat ∧ sockets s !! 0%nat = Some (mkSocket OPEN 0%nat) ∧
  connectionPromise s = Some 0%nat ∧
  connects s !! 0%nat = Some (Fulfilled JUndefined) ∧ awaiting s = [].

(** The state after the frames [ms] have been handed, in order, to
    [_handleWebSocketMessage]. *)
Definition deliver (ms : list JsValue) (s : State) : State :=
  foldl (λ acc m, (_handleWebSocketMessage (Parsed m) acc).1) s ms.

(** [n] calls of [openWebSocket] in a row: the promises returned, the final
    state, everything emitted. *)
Fixpoint open_repeatedly (n : nat) (s : State) : list nat * State * list Effect :=
  match n with
  | O => ([], s, [])
  | S n' =>
    let '(p, s1, out1) := openWebSocket s in
    let '(ps, s2, out2) := open_repeatedly n' s1 in
    (p :: ps, s2, out1 ++ out2)
  end.

(** The three ways a connection is lost. *)
Definition disconnects (e : Event) : bool :=
  match e with
  | Ev_error _ _ | Ev_close _ | Call_closeWebSocket => true
  | _ => false
  end.

(** What the message handler logs after "received" when it finds no
    handler to settle: the [catch] block's error for text that does not
    parse and for [null], the warning otherwise. *)
Definition drop_log (d : Data) : Effect :=
  match d with
  | Unparsable => msg_failed
  | Parsed m => if nullish m then msg_failed else msg_unmatched
  end.

(** A request was sent and the caller then closed the connection while
    another [sendRequest] body was still suspended. *)
Definition closed_before_resume : State :=
  (run [Call_sendRequest "first" (Serializable JNull); Ev_open 0%nat; Ev_resume 0%nat;
        Call_sendRequest "second" (Serializable JNull); Call_closeWebSocket] init).1.

(** A request whose payload cannot be encoded is suspended on an
    established connection. *)
Definition cyclic_suspended : State :=
  (run [Call_openWebSocket; Ev_open 0%nat;
        Call_sendRequest "save" (Unserializable 0%nat)] init).1.

(** The caller closed the first connection and opened a second one, which is
    established; the [close] event of the first has not been delivered yet. *)
Definition replaced_connection : State :=
  (run [Call_openWebSocket; Ev_open 0%nat; Call_closeWebSocket;
        Call_openWebSocket; Ev_open 1%nat] init).1.

(** The calls [sendRequest(type, payload)] for a list of arguments. *)
Definition calls (reqs : list (string * Payload)) : list Event :=
  (λ r, Call_sendRequest r.1 r.2) <$> reqs.

(** The frames handed to [websocket.send], with their transport. *)
Definition sent_frames (out : list Effect) : list (nat * Frame) :=
  omap (λ e, match e with WsSend t fr => Some (t, fr) | _ => None end) out.

(** ** Small scenarios *)

Example scenario_sends_frame :
  (run token_request init).2 =
  [Console LLog "Attempting to connect to WebSocket:"; NewWebSocket WSS_URL 0%nat;
   Console LLog "WebSocket connection established.";
   WsSend 0%nat (mkFrame 1 "getToken" (JObj [("user", JStr "a")]));
   Console LLog "WebSocket request sent:"; SetTimeout 30000 1].
Proof. vm_compute. reflexivity. Qed.

Example scenario_resolves :
  futures (run (token_request ++
     [Ev_message 0%nat (Parsed (JObj [("id", JInt 1);
                                       ("payload", JObj [("token", JStr "xyz")])]))]) init).1
  = [Fulfilled (JObj [("token", JStr "xyz")])].
Proof. vm_compute. reflexivity. Qed.

Example scenario_timeout :
  futures (run (token_request ++ [Ev_timer 0%nat]) init).1
  = [Rejected (NewError (JStr "Request 'getToken' (id: 1) timed out."))].
Proof. vm_compute. reflexivity. Qed.

(** ** Promise stores and lists: auxiliary facts *)

Section stores.
Implicit Types (ps : list Settlement) (p q : nat) (o : Settlement).

Lemma settle_length p o ps : length (settle p o ps) = length ps.
Proof.
  unfold settle. destruct (ps !! p) as [[]|]; try done. apply length_insert.
Qed.

Lemma settle_lookup_ne p q o ps : p ≠ q → settle p o ps !! q = ps !! q.
Proof.
  intros Hne. unfold settle. destruct (ps !! p) as [[]|]; try done.
  by apply list_lookup_insert_ne.
Qed.

Lemma settle_pending p o ps : ps !! p = Some Pending → settle p o ps !! p = Some o.
Proof.
  intros Hp. unfold settle. rewrite Hp.
  apply list_lookup_insert_eq. by eapply lookup_lt_Some.
Qed.

(** A settled promise stays as it is. *)
Lemma settle_settled p q o ps x :
  ps !! q = Some x → x ≠ Pending → settle p o ps !! q = Some x.
Proof.
  intros Hq Hx. destruct (decide (p = q)) as [->|Hne].
  - unfold settle. rewrite Hq. by destruct x.
  - by rewrite settle_lookup_ne.
Qed.

End stores.

Section lists.
Context {A B : Type} (f : A → B).
Implicit Types (l : list A) (x y : A) (i j k : nat).

Lemma NoDup_fmap_lookup l i j x y :
  NoDup (f <$> l) → l !! i = Some x → l !! j = Some y → f x = f y → i = j.
Proof.
  intros Hnd Hi Hj Hxy.
  apply (NoDup_lookup (f <$> l) i j (f x)); [done | |].
  - by rewrite list_lookup_fmap, Hi.
  - by rewrite list_lookup_fmap, Hj, Hxy.
Qed.

Lemma elem_of_delete_lookup l k y :
  y ∈ delete k l → ∃ j, j ≠ k ∧ l !! j = Some y.
Proof.
  intros [i Hi]%list_elem_of_lookup_1.
  destruct (decide (i < k)%nat) as [Hlt|Hge].
  - rewrite list_lookup_delete_lt in Hi by done. exists i. split; [lia | done].
  - rewrite list_lookup_delete_ge in Hi by lia. exists (S i). split; [lia | done].
Qed.

(** In a list whose [f]-images are pairwise different, what is left after
    deleting position [k] differs from what was there. *)
Lemma delete_other l k x y :
  NoDup (f <$> l) → l !! k = Some x → y ∈ delete k l → f y ≠ f x.
Proof.
  intros Hnd Hk (j & Hjk & Hj)%elem_of_delete_lookup Heq.
  apply Hjk. by eapply NoDup_fmap_lookup.
Qed.

Lemma NoDup_fmap_delete l k : NoDup (f <$> l) → NoDup (f <$> delete k l).
Proof.
  intros Hnd. rewrite list_fmap_delete.
  eapply sublist_NoDup; [| apply sublist_delete]. done.
Qed.

Lemma NoDup_fmap_snoc l x :
  NoDup (f <$> l) → (∀ y, y ∈ l → f y ≠ f x) → NoDup (f <$> l ++ [x]).
Proof.
  intros Hnd Hx. rewrite fmap_app. apply NoDup_app. split; [done|]. split.
  - intros b (y & -> & Hy)%list_elem_of_fmap_1 Hb.
    apply list_elem_of_singleton in Hb. by eapply Hx.
  - apply NoDup_singleton.
Qed.

Lemma elem_of_alter_lookup (g : A → A) l k y :
  y ∈ alter g k l →
  (∃ j, j ≠ k ∧ l !! j = Some y) ∨ (∃ x, l !! k = Some x ∧ y = g x).
Proof.
  intros [i Hi]%list_elem_of_lookup_1.
  destruct (decide (k = i)) as [->|Hne].
  - rewrite list_lookup_alter_eq in Hi. right.
    destruct (l !! i) as [x|]; simplify_eq/=. by exists x.
  - rewrite list_lookup_alter_ne in Hi by done. left. exists i. split; [done | done].
Qed.

Lemma fmap_alter_invariant (g : A → A) l k :
  (∀ x, f (g x) = f x) → f <$> alter g k l = f <$> l.
Proof.
  intros Hg. revert k. induction l as [|x l IH]; intros [|k]; simpl; [done..| |].
  - by rewrite Hg.
  - f_equal. apply IH.
Qed.
End lists.

(** ** Invariants of the request table *)

Lemma delete_snoc_last {A} (l : list A) (x : A) : delete (length l) (l ++ [x]) = l.
Proof. induction l as [|y l IH]; simpl; [done | by rewrite IH]. Qed.

Lemma lookup_snoc_last {A} (l : list A) (x : A) : (l ++ [x]) !! length l = Some x.
Proof. by rewrite lookup_app_r, Nat.sub_diag. Qed.

Lemma ReqInv_init : ReqInv init.
Proof.
  constructor; simpl; try (intros; simplify_map_eq; done);
    try (intros ? Hin; by apply elem_of_nil in Hin);
    try (intros ? ? Hin; by apply elem_of_nil in Hin);
    apply NoDup_nil_2.
Qed.

(** The invariant does not look at the connection. *)
Lemma ReqInv_frame s s' :
  ReqInv s →
  messageHandlers s' = messageHandlers s → messageId s' = messageId s →
  futures s' = futures s → timers s' = timers s → awaiting s' = awaiting s →
  ReqInv s'.
Proof.
  intros [] Hm Hi Hf Ht Ha. constructor; rewrite ?Hm, ?Hi, ?Hf, ?Ht, ?Ha; done.
Qed.

(** [sendRequest] creates its promise and suspends. *)
Lemma ReqInv_suspend s s' c :
  ReqInv s →
  messageHandlers s' = messageHandlers s → messageId s' = messageId s →
  futures s' = futures s ++ [Pending] → timers s' = timers s →
  awaiting s' = awaiting s ++ [c] → sr_future c = length (futures s) →
  ReqInv s'.
Proof.
  intros [Hcnt Hkeys Hlt Hinj Hmeta Htnd Htkey Htpend Hand Hapend Hah Hat]
         Hm Hi Hf Ht Ha Hc.
  assert (Hbound : ∀ y, y ∈ awaiting s → (sr_future y < length (futures s))%nat).
  { intros y Hy. eapply lookup_lt_Some, Hapend, Hy. }
  constructor; rewrite ?Hm, ?Hi, ?Hf, ?Ht, ?Ha; try done.
  - intros id h Hh. rewrite length_app. specialize (Hlt _ _ Hh). lia.
  - intros tm Htm. destruct (Hmeta _ Htm) as (? & ? & ?).
    rewrite length_app. split_and!; [lia.. | done | lia].
  - intros tm Htm Hh. destruct (Hmeta _ Htm) as (_ & _ & ?).
    rewrite lookup_app_l by done. by apply Htpend.
  - apply NoDup_fmap_snoc; [done|]. intros y Hy. rewrite Hc.
    specialize (Hbound _ Hy). lia.
  - intros c' [Hc' | ->%list_elem_of_singleton]%elem_of_app.
    + rewrite lookup_app_l by by apply Hbound. by apply Hapend.
    + rewrite Hc, lookup_app_r, Nat.sub_diag by done. done.
  - intros c' id [Hc' | ->%list_elem_of_singleton]%elem_of_app; [by apply Hah|].
    intros Hh. specialize (Hlt _ _ Hh). lia.
  - intros c' tm [Hc' | ->%list_elem_of_singleton]%elem_of_app Htm; [by apply Hat|].
    destruct (Hmeta _ Htm) as (_ & _ & ?). lia.
Qed.

(** A matching response: the entry is deleted and its promise settled. *)
Lemma ReqInv_deliver s s' id h o :
  ReqInv s → messageHandlers s !! id = Some h →
  messageHandlers s' = delete id (messageHandlers s) → messageId s' = messageId s →
  futures s' = settle h o (futures s) → timers s' = timers s →
  awaiting s' = awaiting s →
  ReqInv s'.
Proof.
  intros [Hcnt Hkeys Hlt Hinj Hmeta Htnd Htkey Htpend Hand Hapend Hah Hat]
         Hh Hm Hi Hf Ht Ha.
  constructor; rewrite ?Hm, ?Hi, ?Hf, ?Ht, ?Ha, ?settle_length; try done.
  - intros id' h' [_ ?]%lookup_delete_Some. eauto.
  - intros id' h' [_ ?]%lookup_delete_Some. eauto.
  - intros id1 id2 h' [_ ?]%lookup_delete_Some [_ ?]%lookup_delete_Some. eauto.
  - intros tm id' Htm [_ ?]%lookup_delete_Some. eauto.
  - intros tm Htm [Hne Hold]%lookup_delete_Some.
    rewrite settle_lookup_ne; [by apply Htpend|].
    intros ->. apply Hne. by eapply Hinj.
  - intros c Hc. rewrite settle_lookup_ne; [by apply Hapend|].
    intros Heq. eapply Hah; [done|]. by rewrite <- Heq.
  - intros c id' Hc [_ ?]%lookup_delete_Some. by eapply Hah.
Qed.

(** A timer fires: it is disarmed, and if the entry for its id is still
    there the entry is deleted and the timer's promise rejected. *)
Lemma ReqInv_timeout s s' k tm o :
  ReqInv s → timers s !! k = Some tm →
  timers s' = delete k (timers s) → messageId s' = messageId s →
  awaiting s' = awaiting s →
  (messageHandlers s' = messageHandlers s ∧ futures s' = futures s) ∨
  (messageHandlers s' = delete (tm_id tm) (messageHandlers s) ∧
   futures s' = settle (tm_future tm) o (futures s)) →
  ReqInv s'.
Proof.
  intros [Hcnt Hkeys Hlt Hinj Hmeta Htnd Htkey Htpend Hand Hapend Hah Hat]
         Hk Ht Hi Ha Hcase.
  assert (Hin : tm ∈ timers s) by by eapply list_elem_of_lookup_2.
  assert (Hsub : ∀ x, x ∈ delete k (timers s) → x ∈ timers s)
    by (intros x; apply list_elem_of_delete_inv).
  destruct Hcase as [[Hm Hf] | [Hm Hf]];
    constructor; rewrite ?Hm, ?Hi, ?Hf, ?Ht, ?Ha, ?settle_length;
    try done; try (by apply NoDup_fmap_delete); eauto.
  - intros id' h' [_ ?]%lookup_delete_Some. eauto.
  - intros id' h' [_ ?]%lookup_delete_Some. eauto.
  - intros id1 id2 h' [_ ?]%lookup_delete_Some [_ ?]%lookup_delete_Some. eauto.
  - intros tm' id' Htm' [_ ?]%lookup_delete_Some. eauto.
  - intros tm' Htm' [Hne Hold]%lookup_delete_Some.
    rewrite settle_lookup_ne; [by apply Htpend; eauto|].
    intros Heq. by eapply (delete_other tm_future (timers s) k tm tm').
  - intros c Hc. rewrite settle_lookup_ne; [by apply Hapend|]. by apply Hat.
  - intros c id' Hc [_ ?]%lookup_delete_Some. by eapply Hah.
Qed.

(** A suspended body ends without registering: its promise is rejected. *)
Lemma ReqInv_abandon s s' k c o :
  ReqInv s → awaiting s !! k = Some c →
  messageHandlers s' = messageHandlers s → messageId s' = messageId s →
  futures s' = settle (sr_future c) o (futures s) → timers s' = timers s →
  awaiting s' = delete k (awaiting s) →
  ReqInv s'.
Proof.
  intros [Hcnt Hkeys Hlt Hinj Hmeta Htnd Htkey Htpend Hand Hapend Hah Hat]
         Hk Hm Hi Hf Ht Ha.
  assert (Hin : c ∈ awaiting s) by by eapply list_elem_of_lookup_2.
  assert (Hsub : ∀ x, x ∈ delete k (awaiting s) → x ∈ awaiting s)
    by (intros x; apply list_elem_of_delete_inv).
  constructor; rewrite ?Hm, ?Hi, ?Hf, ?Ht, ?Ha, ?settle_length;
    try done; try (by apply NoDup_fmap_delete); eauto.
  - intros tm Htm Hh. rewrite settle_lookup_ne; [by apply Htpend|].
    intros Heq. by eapply (Hat c tm).
  - intros c' Hc'. rewrite settle_lookup_ne; [by apply Hapend; eauto|].
    intros Heq. by eapply (delete_other sr_future (awaiting s) k c c').
Qed.

Lemma MAX_EXACT_pos : 1 ≤ MAX_EXACT.
Proof. by vm_compute. Qed.

Lemma js_incr_bounds n :
  0 ≤ n ≤ MAX_EXACT → 1 ≤ js_incr n ≤ MAX_EXACT ∧ n ≤ js_incr n.
Proof.
  unfold js_incr. intros Hn. pose proof MAX_EXACT_pos.
  destruct (Z.ltb_spec n MAX_EXACT); lia.
Qed.

Lemma js_incr_exact n : n < MAX_EXACT → js_incr n = n + 1.
Proof. unfold js_incr. intros Hn. destruct (Z.ltb_spec n MAX_EXACT); lia. Qed.

(** A suspended body registers its handler under the next identifier and then
    either arms its timer, or fails in [JSON.stringify] and rejects. *)
Lemma ReqInv_register s s' k c o :
  ReqInv s → awaiting s !! k = Some c →
  messageHandlers s' = <[js_incr (messageId s) := sr_future c]> (messageHandlers s) →
  messageId s' = js_incr (messageId s) →
  awaiting s' = delete k (awaiting s) →
  (timers s' = timers s ++ [mkTimer TIMEOUT_MS (js_incr (messageId s)) (sr_type c) (sr_future c)] ∧
   futures s' = futures s) ∨
  (timers s' = timers s ∧ futures s' = settle (sr_future c) o (futures s)) →
  ReqInv s'.
Proof.
  intros [Hcnt Hkeys Hlt Hinj Hmeta Htnd Htkey Htpend Hand Hapend Hah Hat]
         Hk Hm Hi Ha Hcase.
  assert (Hin : c ∈ awaiting s) by by eapply list_elem_of_lookup_2.
  assert (Hsub : ∀ x, x ∈ delete k (awaiting s) → x ∈ awaiting s)
    by (intros x; apply list_elem_of_delete_inv).
  assert (Hother : ∀ x, x ∈ delete k (awaiting s) → sr_future x ≠ sr_future c)
    by (intros x Hx; by eapply (delete_other sr_future (awaiting s) k c x)).
  destruct (js_incr_bounds _ Hcnt) as [Hnew Hmono].
  assert (Hpend := Hapend _ Hin).
  assert (Hflt := lookup_lt_Some _ _ _ Hpend).
  assert (Hkeys' : ∀ id h,
    <[js_incr (messageId s) := sr_future c]> (messageHandlers s) !! id = Some h →
    1 ≤ id ≤ js_incr (messageId s) ∧ (h < length (futures s))%nat).
  { intros id h [[<- <-] | [_ Hold]]%lookup_insert_Some; [split; [lia | done]|].
    specialize (Hkeys _ _ Hold). specialize (Hlt _ _ Hold). split; [lia | done]. }
  assert (Hinj' : ∀ id id' h,
    <[js_incr (messageId s) := sr_future c]> (messageHandlers s) !! id = Some h →
    <[js_incr (messageId s) := sr_future c]> (messageHandlers s) !! id' = Some h →
    id = id').
  { intros id id' h [[<- <-] | [_ Hold]]%lookup_insert_Some
                    [[<- Heq] | [_ Hold']]%lookup_insert_Some; try done.
    - by destruct (Hah c id' Hin).
    - subst h. by destruct (Hah c id Hin).
    - by eapply Hinj. }
  assert (Hah' : ∀ x id, x ∈ delete k (awaiting s) →
    <[js_incr (messageId s) := sr_future c]> (messageHandlers s) !! id
      ≠ Some (sr_future x)).
  { intros x id Hx [[_ Heq] | [_ Hold]]%lookup_insert_Some.
    - by apply (Hother x Hx).
    - by apply (Hah x id (Hsub _ Hx)). }
  assert (Htkey' : ∀ tm id, tm ∈ timers s →
    <[js_incr (messageId s) := sr_future c]> (messageHandlers s) !! id
      = Some (tm_future tm) → id ≠ js_incr (messageId s) ∧
    messageHandlers s !! id = Some (tm_future tm)).
  { intros tm id Htm [[_ Heq] | [? Hold]]%lookup_insert_Some; [|done].
    by destruct (Hat c tm Hin Htm). }
  destruct Hcase as [[Ht Hf] | [Ht Hf]];
    constructor; rewrite ?Hm, ?Hi, ?Hf, ?Ht, ?Ha, ?settle_length;
    try done; try (by apply NoDup_fmap_delete);
    try (intros id h Hh; by destruct (Hkeys' _ _ Hh)); try lia.
  - (* timers carry ids within the counter *)
    intros tm [Htm | ->%list_elem_of_singleton]%elem_of_app; simpl.
    + destruct (Hmeta _ Htm) as (? & ? & ?). split_and!; [lia.. | done | done].
    + split_and!; [lia.. | done | done].
  - apply NoDup_fmap_snoc; [done|]. intros tm Htm. simpl. by apply Hat.
  - intros tm id [Htm | ->%list_elem_of_singleton]%elem_of_app Hh; simpl in *.
    + destruct (Htkey' _ _ Htm Hh) as [_ Hold]. by eapply Htkey.
    + apply lookup_insert_Some in Hh as [[<- _] | [_ Hold]]; [done|].
      by destruct (Hah c id Hin).
  - intros tm [Htm | ->%list_elem_of_singleton]%elem_of_app Hh; simpl in *; [|done].
    destruct (Htkey' _ _ Htm Hh) as [_ Hold]. by apply Htpend.
  - intros x Hx. apply Hapend. by apply Hsub.
  - intros x tm Hx [Htm | ->%list_elem_of_singleton]%elem_of_app; simpl.
    + apply Hat; [by apply Hsub | done].
    + intros Heq. by apply (Hother x Hx).
  - (* the failing path: the promise just registered is rejected *)
    intros tm Htm. destruct (Hmeta _ Htm) as (? & ? & ?).
    split_and!; [lia.. | done | done].
  - intros tm id Htm Hh. destruct (Htkey' _ _ Htm Hh) as [_ Hold]. by eapply Htkey.
  - intros tm Htm Hh. destruct (Htkey' _ _ Htm Hh) as [_ Hold].
    rewrite settle_lookup_ne; [by apply Htpend|].
    intros Heq. by apply (Hat c tm Hin Htm).
  - intros x Hx. rewrite settle_lookup_ne; [apply Hapend; by apply Hsub|].
    intros Heq. by apply (Hother x Hx).
  - intros x tm Hx Htm. apply Hat; [by apply Hsub | done].
Qed.

(** ** Invariants of the connection *)

Lemma ConnInv_init : ConnInv init.
Proof.
  constructor; simpl; [done | | apply NoDup_nil_2 |];
    intros ? Hin; by apply elem_of_nil in Hin.
Qed.

Lemma ConnInv_frame s s' :
  ConnInv s →
  websocket s' = websocket s → connectionPromise s' = connectionPromise s →
  connects s' = connects s → sockets s' = sockets s →
  ConnInv s'.
Proof.
  intros [] Hw Hp Hc Hs. constructor; rewrite ?Hw, ?Hp, ?Hc, ?Hs; done.
Qed.

(** With no connection promise and no handle, [openWebSocket] takes the
    [Connect] branch: one new promise, one new transport. *)
Lemma openWebSocket_fresh s :
  websocket s = None → connectionPromise s = None →
  openWebSocket s =
    (length (connects s),
     with_connection (Some (length (sockets s))) (Some (length (connects s)))
       (with_sockets (sockets s ++ [mkSocket CONNECTING (length (connects s))])
          (with_connects (connects s ++ [Pending]) s)),
     [Console LLog "Attempting to connect to WebSocket:";
      NewWebSocket WSS_URL (length (sockets s))]).
Proof.
  intros Hw Hp. unfold openWebSocket, executor, executor_branch.
  rewrite Hp. simpl. rewrite Hw. reflexivity.
Qed.

Lemma openWebSocket_existing s p :
  connectionPromise s = Some p → openWebSocket s = (p, s, []).
Proof. intros Hp. unfold openWebSocket. by rewrite Hp. Qed.

(** [openWebSocket] never touches the correlator's part of the state. *)
Lemma openWebSocket_request_fields s :
  let s' := (openWebSocket s).1.2 in
  messageHandlers s' = messageHandlers s ∧ messageId s' = messageId s ∧
  futures s' = futures s ∧ timers s' = timers s ∧ awaiting s' = awaiting s.
Proof.
  unfold openWebSocket, executor.
  destruct (connectionPromise s); [done|].
  destruct (executor_branch _); done.
Qed.

Lemma ConnInv_openWebSocket s : ConnInv s → ConnInv (openWebSocket s).1.2.
Proof.
  intros Hinv. destruct (connectionPromise s) as [p|] eqn:Hp.
  { by rewrite (openWebSocket_existing s p). }
  destruct Hinv as [Hboth Hlt Hnd Hconn].
  rewrite openWebSocket_fresh; [| by apply Hboth | done].
  constructor; simpl.
  - done.
  - intros k [Hk | ->%list_elem_of_singleton]%elem_of_app; rewrite length_app; simpl.
    + specialize (Hlt _ Hk). lia.
    + lia.
  - apply NoDup_fmap_snoc; [done|]. intros k Hk. specialize (Hlt _ Hk). simpl. lia.
  - intros k [Hk | ->%list_elem_of_singleton]%elem_of_app Hr; simpl.
    + rewrite lookup_app_l by by apply Hlt. by apply Hconn.
    + by rewrite lookup_app_r, Nat.sub_diag.
Qed.

(** A change to transport [t] that keeps its promise and does not leave it
    connecting, possibly settling that promise, possibly nulling the two
    module variables. *)
Lemma ConnInv_alter s s' t g :
  ConnInv s →
  sockets s' = alter g t (sockets s) →
  (∀ x, attempt (g x) = attempt x) → (∀ x, readyState (g x) ≠ CONNECTING) →
  (connects s' = connects s ∨
   ∃ k o, sockets s !! t = Some k ∧ connects s' = settle (attempt k) o (connects s)) →
  (websocket s' = websocket s ∧ connectionPromise s' = connectionPromise s) ∨
  (websocket s' = None ∧ connectionPromise s' = None) →
  ConnInv s'.
Proof.
  intros [Hboth Hlt Hnd Hconn] Hs Hg1 Hg2 Hc Hw.
  assert (Hlen : length (connects s') = length (connects s)).
  { destruct Hc as [-> | (k & o & _ & ->)]; [done | apply settle_length]. }
  constructor.
  - destruct Hw as [[-> ->] | [-> ->]]; done.
  - rewrite Hs, Hlen.
    intros k' [(j & _ & Hj) | (x & Hx & ->)]%elem_of_alter_lookup.
    + eapply Hlt, list_elem_of_lookup_2, Hj.
    + rewrite Hg1. eapply Hlt, list_elem_of_lookup_2, Hx.
  - rewrite Hs, fmap_alter_invariant; done.
  - rewrite Hs.
    intros k' [(j & Hjt & Hj) | (x & Hx & ->)]%elem_of_alter_lookup Hr;
      [| by destruct (Hg2 x)].
    assert (Hold : connects s !! attempt k' = Some Pending).
    { apply Hconn; [by eapply list_elem_of_lookup_2 | done]. }
    destruct Hc as [-> | (k & o & Hk & ->)]; [done|].
    rewrite settle_lookup_ne; [done|].
    intros Heq. apply Hjt. symmetry. by eapply (NoDup_fmap_lookup attempt).
Qed.

Lemma ConnInv_closeWebSocket s : ConnInv s → ConnInv (closeWebSocket s).1.
Proof.
  intros Hinv. unfold closeWebSocket. destruct (websocket s) as [t|]; [|done].
  eapply (ConnInv_alter s _ t close_socket); simpl; eauto.
  - intros x. unfold close_socket. by destruct (readyState x).
  - intros x. unfold close_socket. by destruct (readyState x) eqn:Hx; simpl; rewrite ?Hx.
Qed.

Lemma ConnInv_step e s : ConnInv s → ConnInv (step e s).
Proof.
  intros Hinv. unfold step. destruct e as [|ty pl| |t|t d|t err|t|k|k]; simpl.
  - pose proof (ConnInv_openWebSocket s Hinv).
    by destruct (openWebSocket s) as [[p s'] out].
  - unfold sendRequest.
    pose proof (ConnInv_openWebSocket (with_futures (futures s ++ [Pending]) s)) as H.
    destruct (openWebSocket _) as [[p s'] out]. simpl in *.
    eapply ConnInv_frame; [apply H|..]; try done.
    by eapply ConnInv_frame.
  - by apply ConnInv_closeWebSocket.
  - destruct (sockets s !! t) as [k|] eqn:Hk; [|done].
    destruct (readyState k); try done.
    eapply (ConnInv_alter s _ t); simpl; eauto.
  - destruct (sockets s !! t) as [k|]; [|done].
    destruct (is_open _); [|done].
    unfold _handleWebSocketMessage. destruct d as [|m]; [done|].
    destruct (nullish m); [done|].
    destruct (matching_handler _ _) as [[id h]|]; [|done].
    destruct (response_outcome m); [|done].
    by eapply ConnInv_frame.
  - destruct (sockets s !! t) as [k|] eqn:Hk; [|done].
    eapply (ConnInv_alter s _ t); simpl; eauto.
  - destruct (sockets s !! t) as [k|] eqn:Hk; [|done].
    eapply (ConnInv_alter s _ t); simpl; eauto.
  - destruct (timers s !! k) as [tm|]; [|done].
    unfold timeout_callback. simpl.
    destruct (messageHandlers s !! tm_id tm); by eapply ConnInv_frame.
  - unfold sendRequest_resume. destruct (awaiting s !! k) as [c|]; [|done].
    destruct (connects s !! sr_awaits c) as [[|v|r]|]; try done.
    + unfold sendRequest_connected. simpl.
      destruct (websocket s) as [t|]; [|by eapply ConnInv_frame].
      destruct (default false _); [|by eapply ConnInv_frame].
      destruct (sr_payload c); by eapply ConnInv_frame.
    + by eapply ConnInv_frame.
Qed.

Lemma matching_handler_Some m v id h :
  matching_handler m v = Some (id, h) → v = JInt id ∧ id ≠ 0 ∧ m !! id = Some h.
Proof.
  unfold matching_handler. destruct v as [| |b|z|n|str|items|fields]; simpl;
    try done; try (by destruct (negb _)); try (by destruct b).
  destruct (Z.eqb_spec z 0) as [->|Hz]; simpl; [done|].
  destruct (m !! z) as [h'|] eqn:Hm; simpl; [|done].
  intros [= <- <-]. done.
Qed.

Lemma matching_handler_JInt m id h :
  id ≠ 0 → m !! id = Some h → matching_handler m (JInt id) = Some (id, h).
Proof.
  intros Hid Hm. unfold matching_handler. simpl.
  destruct (Z.eqb_spec id 0) as [->|_]; [done|]. simpl. by rewrite Hm.
Qed.

Lemma ReqInv_step e s : ReqInv s → ReqInv (step e s).
Proof.
  intros Hinv. unfold step. destruct e as [|ty pl| |t|t d|t err|t|k|k]; simpl.
  - pose proof (openWebSocket_request_fields s) as (? & ? & ? & ? & ?).
    destruct (openWebSocket s) as [[p s'] out]. by eapply ReqInv_frame.
  - unfold sendRequest.
    pose proof (openWebSocket_request_fields (with_futures (futures s ++ [Pending]) s))
      as (? & ? & ? & ? & ?).
    destruct (openWebSocket _) as [[p s'] out]. simpl in *.
    by eapply (ReqInv_suspend s _ (mkSuspended (length (futures s)) p ty pl));
      simpl; try done; congruence.
  - unfold closeWebSocket. destruct (websocket s); by eapply ReqInv_frame.
  - destruct (sockets s !! t) as [k|]; [|done].
    destruct (readyState k); try done; by eapply ReqInv_frame.
  - destruct (sockets s !! t) as [k|]; [|done].
    destruct (is_open _); [|done].
    unfold _handleWebSocketMessage. destruct d as [|m]; [done|].
    destruct (nullish m); [done|].
    destruct (matching_handler _ _) as [[id h]|] eqn:Hmatch; [|done].
    apply matching_handler_Some in Hmatch as (_ & _ & Hh).
    destruct (response_outcome m) as [o|]; [|done].
    by eapply (ReqInv_deliver s _ id h o).
  - destruct (sockets s !! t) as [k|]; [|done]. by eapply ReqInv_frame.
  - destruct (sockets s !! t) as [k|]; [|done]. by eapply ReqInv_frame.
  - destruct (timers s !! k) as [tm|] eqn:Hk; [|done].
    unfold timeout_callback. simpl.
    destruct (messageHandlers s !! tm_id tm).
    + eapply (ReqInv_timeout s _ k tm); simpl; try done. by right.
    + eapply (ReqInv_timeout s _ k tm Pending); simpl; try done. by left.
  - unfold sendRequest_resume. destruct (awaiting s !! k) as [c|] eqn:Hk; [|done].
    destruct (connects s !! sr_awaits c) as [[|v|r]|]; try done.
    + unfold sendRequest_connected. simpl.
      destruct (websocket s) as [t|];
        [|by eapply (ReqInv_abandon s _ k c)].
      destruct (default false _); [|by eapply (ReqInv_abandon s _ k c)].
      destruct (sr_payload c) as [v'|e].
      * eapply (ReqInv_register s _ k c Pending); simpl; try done. by left.
      * eapply (ReqInv_register s _ k c); simpl; try done. by right.
    + by eapply (ReqInv_abandon s _ k c).
Qed.

Theorem reachable_Inv s : reachable s → Inv s.
Proof.
  induction 1 as [|s e _ [IHc IHr]].
  - split; [apply ConnInv_init | apply ReqInv_init].
  - split; [by apply ConnInv_step | by apply ReqInv_step].
Qed.

Lemma run_step e es s :
  run (e :: es) s = ((run es (step e s)).1, (react e s).2 ++ (run es (step e s)).2).
Proof.
  unfold step. simpl. destruct (react e s) as [s1 out1].
  simpl. by destruct (run es s1).
Qed.

Lemma reachable_run es s : reachable s → reachable (run es s).1.
Proof.
  revert s. induction es as [|e es IH]; intros s Hs; [done|].
  rewrite run_step. simpl. apply IH. by constructor.
Qed.

(** ** Delivery of a response *)

Lemma member_JInt_not_nullish m k z : member m k = JInt z → nullish m = false.
Proof. by destruct m. Qed.

Lemma handle_matching m id h o s :
  member m "id" = JInt id → id ≠ 0 → messageHandlers s !! id = Some h →
  response_outcome m = Some o →
  _handleWebSocketMessage (Parsed m) s =
    (with_handlers (delete id (messageHandlers s))
       (with_futures (settle h o (futures s)) s),
     [msg_received]).
Proof.
  intros Hid Hnz Hh Ho. unfold _handleWebSocketMessage.
  rewrite (member_JInt_not_nullish _ _ _ Hid), Hid.
  by rewrite (matching_handler_JInt _ _ _ Hnz Hh), Ho.
Qed.

(** A matching frame on which [new Error(message.error)] throws. *)
Lemma handle_throwing m id h s :
  member m "id" = JInt id → id ≠ 0 → messageHandlers s !! id = Some h →
  response_outcome m = None →
  _handleWebSocketMessage (Parsed m) s = (s, [msg_received; msg_failed]).
Proof.
  intros Hid Hnz Hh Ho. unfold _handleWebSocketMessage.
  rewrite (member_JInt_not_nullish _ _ _ Hid), Hid.
  by rewrite (matching_handler_JInt _ _ _ Hnz Hh), Ho.
Qed.

(** When the string conversion of the [error] field does not throw, which
    is so whenever the field is absent, falsy or a string, the handler
    settles the promise. *)
Lemma response_outcome_convertible m :
  to_string_throws (member m "error") = false →
  response_outcome m =
    Some (if truthy (member m "error")
          then Rejected (NewError (member m "error"))
          else Fulfilled (member m "payload")).
Proof. unfold response_outcome. intros ->. by destruct (truthy _). Qed.




(** ** Properties of the module *)

Lemma two_pending_reachable : reachable two_pending.
Proof. apply reachable_run, reachable_init. Qed.



Lemma open_repeatedly_existing n s p :
  connectionPromise s = Some p → open_repeatedly n s = (replicate n p, s, []).
Proof.
  intros Hp. induction n as [|n IH]; [done|].
  simpl. rewrite (openWebSocket_existing s p Hp), IH. done.
Qed.

(** A settled connection promise is never changed again. *)
Lemma connects_final e s p x :
  connects s !! p = Some x → x ≠ Pending → connects (step e s) !! p = Some x.
Proof.
  intros Hp Hx. pose proof (lookup_lt_Some _ _ _ Hp) as Hlt.
  assert (Hopen : ∀ s0, connects s0 = connects s →
            connects (openWebSocket s0).1.2 !! p = Some x).
  { intros s0 Hs0. unfold openWebSocket, executor.
    destruct (connectionPromise s0); [simpl; by rewrite Hs0|].
    destruct (executor_branch _); simpl; rewrite Hs0.
    - apply settle_settled; [by rewrite lookup_app_l | done].
    - by rewrite lookup_app_l.
    - by rewrite lookup_app_l. }
  unfold step. destruct e as [|ty pl| |t|t d|t err|t|k|k]; simpl.
  - specialize (Hopen s eq_refl). by destruct (openWebSocket s) as [[q s'] out].
  - unfold sendRequest.
    specialize (Hopen (with_futures (futures s ++ [Pending]) s) eq_refl).
    by destruct (openWebSocket _) as [[q s'] out].
  - unfold closeWebSocket. by destruct (websocket s).
  - destruct (sockets s !! t) as [k|]; [|done].
    destruct (readyState k); try done. simpl. by apply settle_settled.
  - destruct (sockets s !! t) as [k|]; [|done].
    destruct (is_open _); [|done].
    unfold _handleWebSocketMessage. destruct d as [|m]; [done|].
    destruct (nullish m); [done|].
    destruct (matching_handler _ _) as [[id h]|]; [|done].
    by destruct (response_outcome m).
  - destruct (sockets s !! t) as [k|]; [|done]. simpl. by apply settle_settled.
  - by destruct (sockets s !! t).
  - destruct (timers s !! k) as [tm|]; [|done].
    unfold timeout_callback. simpl. by destruct (messageHandlers s !! tm_id tm).
  - unfold sendRequest_resume. destruct (awaiting s !! k) as [c|]; [|done].
    destruct (connects s !! sr_awaits c) as [[|v|r]|]; try done.
    unfold sendRequest_connected. simpl.
    destruct (websocket s) as [t|]; [|done].
    destruct (default false _); [|done]. by destruct (sr_payload c).
Qed.

(** The [open] event of a connecting transport fulfils the promise of its
    attempt, and its [error] event rejects it with the event. *)
Lemma attempt_settles s t k :
  reachable s → sockets s !! t = Some k → readyState k = CONNECTING →
  connects (step (Ev_open t) s) !! attempt k = Some (Fulfilled JUndefined) ∧
  ∀ error, connects (step (Ev_error t error) s) !! attempt k
           = Some (Rejected (ErrorEvent error)).
Proof.
  intros [Hconn _]%reachable_Inv Hk Hr.
  assert (Hpend : connects s !! attempt k = Some Pending).
  { apply (conn_connecting s Hconn); [by eapply list_elem_of_lookup_2 | done]. }
  unfold step. simpl. rewrite Hk, Hr. simpl. split; [|intros error]; by apply settle_pending.
Qed.

(** C2: while a connection promise exists every call of [openWebSocket]
    returns that promise, changes nothing and creates no transport; a burst
    of calls that starts without a connection promise creates exactly one
    transport, every call returning the one promise of that attempt.  That
    promise is fulfilled by the transport's [open] event and rejected by its
    [error] event, also when other reactions come in between, and once
    settled it never changes: all callers of the attempt get the one
    outcome together. *)
Theorem C2_single_connection_attempt :
  (∀ s p n, connectionPromise s = Some p →
     open_repeatedly n s = (replicate n p, s, [])) ∧
  (∀ s n, reachable s → connectionPromise s = None →
     ∃ p s' out,
       open_repeatedly (S n) s = (replicate (S n) p, s', out) ∧
       created out = [length (sockets s)] ∧
       sockets s' = sockets s ++ [mkSocket CONNECTING p] ∧
       websocket s' = Some (length (sockets s)) ∧
       connectionPromise s' = Some p ∧
       connects s' !! p = Some Pending ∧
       connects (step (Ev_open (length (sockets s))) s') !! p
         = Some (Fulfilled JUndefined) ∧
       (∀ error, connects (step (Ev_error (length (sockets s)) error) s') !! p
                 = Some (Rejected (ErrorEvent error)))) ∧
  (∀ s t k, reachable s → sockets s !! t = Some k → readyState k = CONNECTING →
     connects (step (Ev_open t) s) !! attempt k = Some (Fulfilled JUndefined) ∧
     ∀ error, connects (step (Ev_error t error) s) !! attempt k
              = Some (Rejected (ErrorEvent error))) ∧
  (∀ s e p x, connects s !! p = Some x → x ≠ Pending →
     connects (step e s) !! p = Some x).
Proof.
  split_and!;
    [intros s p n; apply open_repeatedly_existing | |
     apply attempt_settles | intros s e p x; apply connects_final].
  intros s n [Hconn _]%reachable_Inv Hp.
  assert (Hw : websocket s = None) by by apply (conn_both s Hconn).
  eexists _, _, _. simpl.
  rewrite (openWebSocket_fresh s Hw Hp).
  rewrite (open_repeatedly_existing n _ (length (connects s))) by done.
  split; [reflexivity|]. unfold step. simpl.
  rewrite !lookup_snoc_last. simpl.
  split_and!; try done; try apply lookup_snoc_last;
    intros; apply settle_pending, lookup_snoc_last.
Qed.

Lemma C2_witness :
  open_repeatedly 3 two_pending = (replicate 3 0%nat, two_pending, []) ∧
  (∃ p s' out,
    open_repeatedly 3 init = (replicate 3 p, s', out) ∧
    created out = [0%nat] ∧
    sockets s' = [mkSocket CONNECTING p] ∧
    websocket s' = Some 0%nat ∧
    connectionPromise s' = Some p ∧
    connects s' !! p = Some Pending ∧
    connects (step (Ev_open 0%nat) s') !! p = Some (Fulfilled JUndefined) ∧
    (∀ error, connects (step (Ev_error 0%nat error) s') !! p
              = Some (Rejected (ErrorEvent error)))) ∧
  (connects (step (Ev_open 0%nat) (step Call_openWebSocket init)) !! 0%nat
     = Some (Fulfilled JUndefined) ∧
   ∀ error, connects (step (Ev_error 0%nat error) (step Call_openWebSocket init)) !! 0%nat
            = Some (Rejected (ErrorEvent error))) ∧
  connects (step (Ev_error 0%nat 7%nat) two_pending) !! 0%nat
    = Some (Fulfilled JUndefined).
Proof.
  destruct C2_single_connection_attempt as (Hsame & Hone & Hsettle & Hfinal).
  split; [|split; [|split]].
  - apply (Hsame two_pending 0%nat 3%nat). reflexivity.
  - apply (Hone init 2%nat); [apply reachable_init | reflexivity].
  - apply (Hsettle (step Call_openWebSocket init) 0%nat (mkSocket CONNECTING 0%nat));
      [apply reachable_step, reachable_init | reflexivity | reflexivity].
  - apply (Hfinal two_pending (Ev_error 0%nat 7%nat) 0%nat (Fulfilled JUndefined));
      [reflexivity | discriminate].
Defined.

(** C5: an [error] event on a transport that is still connecting leaves
    [websocket] and [connectionPromise] null and rejects that attempt's
    promise with the event; the next [openWebSocket], also the one inside
    the next [sendRequest], creates one new transport with a new promise. *)
Theorem C5_error_allows_fresh_attempt s t k error :
  reachable s → sockets s !! t = Some k → readyState k = CONNECTING →
  let s' := step (Ev_error t error) s in
  websocket s' = None ∧ connectionPromise s' = None ∧
  connects s' !! attempt k = Some (Rejected (ErrorEvent error)) ∧
  (∃ p s'' out,
     openWebSocket s' = (p, s'', out) ∧
     created out = [length (sockets s')] ∧ length (sockets s') ≠ t ∧
     p ≠ attempt k ∧
     websocket s'' = Some (length (sockets s')) ∧
     connectionPromise s'' = Some p ∧
     sockets s'' !! length (sockets s') = Some (mkSocket CONNECTING p)) ∧
  (∀ type payload,
     created (sendRequest type payload s').2 = [length (sockets s')]).
Proof.
  intros [Hconn _]%reachable_Inv Hk Hr s'.
  assert (Hpend : connects s !! attempt k = Some Pending).
  { apply (conn_connecting s Hconn); [by eapply list_elem_of_lookup_2 | done]. }
  assert (Hs' : s' = with_connects
            (settle (attempt k) (Rejected (ErrorEvent error)) (connects s))
            (with_connection None None (set_readyState t CLOSED s))).
  { unfold s', step. simpl. by rewrite Hk. }
  assert (Hlen : length (sockets s') = length (sockets s)).
  { rewrite Hs'. simpl. apply length_alter. }
  assert (Hclen : length (connects s') = length (connects s)).
  { rewrite Hs'. simpl. apply settle_length. }
  assert (Hw : websocket s' = None) by by rewrite Hs'.
  assert (Hp : connectionPromise s' = None) by by rewrite Hs'.
  split_and!; try done.
  - rewrite Hs'. simpl. by apply settle_pending.
  - eexists _, _, _. rewrite (openWebSocket_fresh s' Hw Hp). split; [reflexivity|].
    simpl. split_and!; try done.
    + rewrite Hlen. apply lookup_lt_Some in Hk. lia.
    + rewrite Hclen. apply lookup_lt_Some in Hpend. lia.
    + by rewrite lookup_app_r, Nat.sub_diag.
  - intros type payload. unfold sendRequest.
    rewrite openWebSocket_fresh by done. done.
Qed.

Lemma C5_witness :
  let s := step Call_openWebSocket init in
  let s' := step (Ev_error 0%nat 7%nat) s in
  websocket s' = None ∧ connectionPromise s' = None ∧
  connects s' !! 0%nat = Some (Rejected (ErrorEvent 7%nat)) ∧
  (∃ p s'' out,
     openWebSocket s' = (p, s'', out) ∧
     created out = [1%nat] ∧ 1%nat ≠ 0%nat ∧ p ≠ 0%nat ∧
     websocket s'' = Some 1%nat ∧ connectionPromise s'' = Some p ∧
     sockets s'' !! 1%nat = Some (mkSocket CONNECTING p)) ∧
  (∀ type payload, created (sendRequest type payload s').2 = [1%nat]).
Proof.
  intros s s'.
  apply (C5_error_allows_fresh_attempt s 0%nat (mkSocket CONNECTING 0%nat) 7%nat);
    [apply reachable_step, reachable_init | reflexivity | reflexivity].
Defined.

(** C6: [closeWebSocket] with no transport handle only logs: it returns the
    state it was given, in which the connection promise is null as well, and
    neither the request table nor the counter changes. *)
Theorem C6_close_without_handle s :
  reachable s → websocket s = None →
  closeWebSocket s = (s, [Console LLog "WebSocket is not connected, no action taken."]) ∧
  websocket (closeWebSocket s).1 = None ∧
  connectionPromise (closeWebSocket s).1 = None ∧
  messageHandlers (closeWebSocket s).1 = messageHandlers s ∧
  messageId (closeWebSocket s).1 = messageId s.
Proof.
  intros [Hconn _]%reachable_Inv Hw.
  assert (Hclose : closeWebSocket s =
    (s, [Console LLog "WebSocket is not connected, no action taken."])).
  { unfold closeWebSocket. by rewrite Hw. }
  rewrite Hclose. simpl. split_and!; try done. by apply (conn_both s Hconn).
Qed.

Lemma C6_witness :
  closeWebSocket init =
    (init, [Console LLog "WebSocket is not connected, no action taken."]) ∧
  websocket (closeWebSocket init).1 = None ∧
  connectionPromise (closeWebSocket init).1 = None ∧
  messageHandlers (closeWebSocket init).1 = messageHandlers init ∧
  messageId (closeWebSocket init).1 = messageId init.
Proof.
  apply (C6_close_without_handle init); [apply reachable_init | reflexivity].
Defined.

(** The one-directional invariant on its own is already preserved by every
    reaction. *)
Lemma null_together_step e s :
  (connectionPromise s = None → websocket s = None) →
  connectionPromise (step e s) = None → websocket (step e s) = None.
Proof.
  intros Hinv. unfold step. destruct e as [|ty pl| |t|t d|t err|t|k|k]; simpl.
  - destruct (connectionPromise s) as [p|] eqn:Hp.
    + rewrite (openWebSocket_existing s p Hp). simpl. by rewrite Hp.
    + unfold openWebSocket. rewrite Hp. by destruct (executor _ _).
  - unfold sendRequest. destruct (connectionPromise s) as [p|] eqn:Hp.
    + rewrite (openWebSocket_existing _ p) by done. simpl. by rewrite Hp.
    + unfold openWebSocket. simpl. rewrite Hp. by destruct (executor _ _).
  - unfold closeWebSocket. destruct (websocket s) eqn:Hw; simpl; [done | by intros _].
  - destruct (sockets s !! t) as [k|]; [|done]. by destruct (readyState k).
  - destruct (sockets s !! t) as [k|]; [|done].
    destruct (is_open _); [|done].
    unfold _handleWebSocketMessage. destruct d as [|m]; [done|].
    destruct (nullish m); [done|].
    destruct (matching_handler _ _) as [[id h]|]; [|done].
    by destruct (response_outcome m).
  - by destruct (sockets s !! t).
  - by destruct (sockets s !! t).
  - destruct (timers s !! k) as [tm|]; [|done].
    unfold timeout_callback. simpl. by destruct (messageHandlers s !! tm_id tm).
  - unfold sendRequest_resume. destruct (awaiting s !! k) as [c|]; [|done].
    destruct (connects s !! sr_awaits c) as [[|v|r]|]; try done.
    unfold sendRequest_connected. simpl.
    destruct (websocket s) as [t|] eqn:Hw; [|simpl; by intros _].
    destruct (default false _); [|simpl; by rewrite Hw].
    destruct (sr_payload c); simpl; by rewrite Hw.
Qed.

(** C10: every reaction preserves "a null [connectionPromise] comes with a
    null [websocket]", so it holds in every reachable state; and therefore,
    when [openWebSocket] runs the executor of a new promise, the executor
    takes neither the already-open nor the already-connecting branch. *)
Theorem C10_null_together :
  (∀ e s, (connectionPromise s = None → websocket s = None) →
          connectionPromise (step e s) = None → websocket (step e s) = None) ∧
  (∀ s, reachable s → connectionPromise s = None →
        websocket s = None ∧
        executor_branch (with_connects (connects s ++ [Pending]) s) = Connect).
Proof.
  split; [apply null_together_step|].
  intros s [Hconn _]%reachable_Inv Hp.
  assert (Hw : websocket s = None) by by apply (conn_both s Hconn).
  split; [done|]. unfold executor_branch. simpl. by rewrite Hw.
Qed.

Lemma C10_witness :
  let s := step (Ev_close 0%nat) two_pending in
  websocket (step Call_closeWebSocket two_pending) = None ∧
  websocket s = None ∧
  executor_branch (with_connects (connects s ++ [Pending]) s) = Connect.
Proof.
  intros s. split.
  - apply (proj1 C10_null_together Call_closeWebSocket two_pending);
      [discriminate | reflexivity].
  - apply (proj2 C10_null_together s);
      [apply reachable_step, two_pending_reachable | reflexivity].
Defined.





(** ** Identifiers *)

(** A reaction leaves the counter alone or advances it by one [++]; when it
    hands a frame to [websocket.send], that frame carries the new counter. *)
Lemma react_counter e s :
  (messageId (step e s) = messageId s ∧ sent_ids (react e s).2 = []) ∨
  (messageId (step e s) = js_incr (messageId s) ∧
   (sent_ids (react e s).2 = [] ∨ sent_ids (react e s).2 = [js_incr (messageId s)])).
Proof.
  unfold step. destruct e as [|ty pl| |t|t d|t err|t|k|k]; simpl.
  - left. unfold openWebSocket, executor.
    destruct (connectionPromise s); [done|]. by destruct (executor_branch _).
  - left. unfold sendRequest, openWebSocket, executor. simpl.
    destruct (connectionPromise s); [done|]. by destruct (executor_branch _).
  - left. unfold closeWebSocket. by destruct (websocket s).
  - left. destruct (sockets s !! t) as [k|]; [|done]. by destruct (readyState k).
  - left. destruct (sockets s !! t) as [k|]; [|done].
    destruct (is_open _); [|done].
    unfold _handleWebSocketMessage. destruct d as [|m]; [done|].
    destruct (nullish m); [done|].
    destruct (matching_handler _ _) as [[id h]|]; [|done].
    by destruct (response_outcome m).
  - left. by destruct (sockets s !! t).
  - left. by destruct (sockets s !! t).
  - left. destruct (timers s !! k) as [tm|]; [|done].
    unfold timeout_callback. simpl. by destruct (messageHandlers s !! tm_id tm).
  - unfold sendRequest_resume. destruct (awaiting s !! k) as [c|]; [|by left].
    destruct (connects s !! sr_awaits c) as [[|v|r]|]; try (by left).
    unfold sendRequest_connected. simpl.
    destruct (websocket s) as [t|]; [|by left].
    destruct (default false _); [|by left].
    right. destruct (sr_payload c); simpl; by eauto.
Qed.

Lemma step_counter_mono e s : ReqInv s → messageId s ≤ messageId (step e s).
Proof.
  intros Hreq. destruct (js_incr_bounds _ (req_counter s Hreq)) as [_ Hle].
  destruct (react_counter e s) as [[-> _] | [-> _]]; lia.
Qed.

(** Below [2^53] the identifiers of the frames sent during a run lie above
    the counter the run started from, up to the counter it ends with, and
    increase strictly. *)
Lemma run_sent_ids es s :
  reachable s → messageId (run es s).1 < MAX_EXACT →
  messageId s ≤ messageId (run es s).1 ∧
  Forall (λ id, messageId s < id ≤ messageId (run es s).1) (sent_ids (run es s).2) ∧
  StronglySorted Z.lt (sent_ids (run es s).2).
Proof.
  revert s. induction es as [|e es IH]; intros s Hs Hbound.
  { simpl. split_and!; [lia | constructor | constructor]. }
  rewrite run_step in *. simpl in *.
  assert (Hs1 : reachable (step e s)) by by constructor.
  destruct (IH _ Hs1 Hbound) as (Hle & Hall & Hsorted).
  destruct (reachable_Inv s Hs) as [_ Hreq].
  pose proof (step_counter_mono e s Hreq) as Hmono.
  unfold sent_ids in *. rewrite omap_app. fold (sent_ids (react e s).2).
  split; [lia|].
  assert (Hall' : Forall (λ id, messageId s < id ≤ messageId (run es (step e s)).1)
                    (omap (λ e0, match e0 with WsSend _ fr => Some (f_id fr) | _ => None end)
                       (run es (step e s)).2)).
  { eapply Forall_impl; [exact Hall|]. simpl. intros id ?. lia. }
  destruct (react_counter e s) as [[_ ->] | [Hnew [-> | ->]]]; simpl; try done.
  assert (messageId s < js_incr (messageId s)).
  { rewrite js_incr_exact; lia. }
  split.
  - constructor; [lia | done].
  - constructor; [done|]. eapply Forall_impl; [exact Hall|]. simpl. intros id ?. lia.
Qed.

(** What a reaction does to the counter and the table, below [2^53]. *)
Lemma registration_step e s :
  reachable s → messageId s < MAX_EXACT →
  if reaches_registration e s then
    messageId (step e s) = messageId s + 1 ∧
    messageHandlers s !! (messageId s + 1) = None ∧
    (∀ id h, messageHandlers s !! id = Some h → id < messageId s + 1) ∧
    ∃ h, messageHandlers (step e s) = <[messageId s + 1 := h]> (messageHandlers s)
  else
    messageId (step e s) = messageId s ∧
    ∀ id h, messageHandlers (step e s) !! id = Some h →
            messageHandlers s !! id = Some h.
Proof.
  intros [_ Hreq]%reachable_Inv Hbound.
  assert (Hbelow : ∀ id h, messageHandlers s !! id = Some h → id < messageId s + 1).
  { intros id h Hh. pose proof (req_keys s Hreq id h Hh). lia. }
  unfold step. destruct e as [|ty pl| |t|t d|t err|t|k|k]; simpl.
  - pose proof (openWebSocket_request_fields s) as (Hm & Hi & _).
    destruct (openWebSocket s) as [[p s'] out]. simpl in *. by rewrite Hm, Hi.
  - unfold sendRequest.
    pose proof (openWebSocket_request_fields (with_futures (futures s ++ [Pending]) s))
      as (Hm & Hi & _).
    destruct (openWebSocket _) as [[p s'] out]. simpl in *. by rewrite Hm, Hi.
  - unfold closeWebSocket. by destruct (websocket s).
  - destruct (sockets s !! t) as [k|]; [|done]. by destruct (readyState k).
  - destruct (sockets s !! t) as [k|]; [|done].
    destruct (is_open _); [|done].
    unfold _handleWebSocketMessage. destruct d as [|m]; [done|].
    destruct (nullish m); [done|].
    destruct (matching_handler _ _) as [[id h]|]; [|done].
    destruct (response_outcome m); [|done]. simpl.
    split; [done|]. by intros id' h' [_ ?]%lookup_delete_Some.
  - by destruct (sockets s !! t).
  - by destruct (sockets s !! t).
  - destruct (timers s !! k) as [tm|]; [|done].
    unfold timeout_callback. simpl.
    destruct (messageHandlers s !! tm_id tm); [|done]. simpl.
    split; [done|]. by intros id' h' [_ ?]%lookup_delete_Some.
  - unfold sendRequest_resume. destruct (awaiting s !! k) as [c|]; [|done].
    destruct (connects s !! sr_awaits c) as [[|v|r]|]; try done.
    unfold sendRequest_connected. simpl.
    destruct (websocket s) as [t|]; [|done].
    destruct (default false _); [|done].
    rewrite (js_incr_exact _ Hbound).
    assert (messageHandlers s !! (messageId s + 1) = None).
    { destruct (messageHandlers s !! (messageId s + 1)) as [h|] eqn:Hh; [|done].
      specialize (Hbelow _ _ Hh). lia. }
    destruct (sr_payload c); simpl; split_and!; eauto.
Qed.

Lemma StronglySorted_lt_NoDup (l : list Z) : StronglySorted Z.lt l → NoDup l.
Proof.
  induction 1 as [|x l _ IH Hall]; constructor; [|done].
  intros Hin. rewrite Forall_forall in Hall. specialize (Hall _ Hin). lia.
Qed.

Lemma run_app es1 es2 s :
  run (es1 ++ es2) s =
    ((run es2 (run es1 s).1).1, (run es1 s).2 ++ (run es2 (run es1 s).1).2).
Proof.
  revert s. induction es1 as [|e es1 IH]; intros s.
  { simpl. by destruct (run es2 s). }
  rewrite <- app_comm_cons, !run_step, IH. simpl. by rewrite app_assoc.
Qed.

Lemma sendRequest_existing s p type payload :
  connectionPromise s = Some p →
  sendRequest type payload s =
    (length (futures s),
     with_awaiting (awaiting s ++ [mkSuspended (length (futures s)) p type payload])
       (with_futures (futures s ++ [Pending]) s),
     []).
Proof.
  intros Hp. unfold sendRequest. by rewrite (openWebSocket_existing _ p).
Qed.

(** A suspended body whose connection promise is fulfilled, on an open
    transport, with a payload that can be encoded. *)
Lemma sendRequest_resume_sends s k c v x t sock :
  awaiting s !! k = Some c → connects s !! sr_awaits c = Some (Fulfilled x) →
  websocket s = Some t → sockets s !! t = Some sock → readyState sock = OPEN →
  sr_payload c = Serializable v →
  sendRequest_resume k s =
    (with_timers
       (timers s ++ [mkTimer TIMEOUT_MS (js_incr (messageId s)) (sr_type c) (sr_future c)])
       (with_handlers (<[js_incr (messageId s) := sr_future c]> (messageHandlers s))
          (with_messageId (js_incr (messageId s))
             (with_awaiting (delete k (awaiting s)) s))),
     [WsSend t (mkFrame (js_incr (messageId s)) (sr_type c) v);
      Console LLog "WebSocket request sent:";
      SetTimeout TIMEOUT_MS (js_incr (messageId s))]).
Proof.
  intros Hk Hc Hw Hsock Hopen Hpl.
  unfold sendRequest_resume. rewrite Hk, Hc.
  unfold sendRequest_connected. cbn [websocket sockets with_awaiting].
  rewrite Hw, Hsock. cbn [fmap option_fmap option_map default compose].
  rewrite Hopen, Hpl. reflexivity.
Qed.

Lemma round_trip_idle_open s :
  idle_open s →
  idle_open (run round_trip s).1 ∧
  messageId (run round_trip s).1 = js_incr (messageId s) ∧
  sent_ids (run round_trip s).2 = [js_incr (messageId s)].
Proof.
  intros (Hw & Hk & Hp & Hc & Ha). unfold round_trip, idle_open.
  rewrite !run_step. unfold step. cbn [react run fst snd].
  rewrite (sendRequest_existing s 0%nat) by done. cbn [fst snd].
  rewrite (sendRequest_resume_sends _ 0%nat
             (mkSuspended (length (futures s)) 0%nat "ping" (Serializable JNull))
             JNull JUndefined 0%nat (mkSocket OPEN 0%nat));
    [| by simpl; rewrite ?Ha..].
  simpl. by rewrite Ha.
Qed.

(** Every counter value up to [2^53] is reached, one request at a time. *)
Lemma counter_reachable (n : nat) :
  Z.of_nat n ≤ MAX_EXACT →
  ∃ s, reachable s ∧ idle_open s ∧ messageId s = Z.of_nat n.
Proof.
  induction n as [|n IH]; intros Hn.
  - exists (run [Call_openWebSocket; Ev_open 0%nat] init).1. split_and!.
    + apply reachable_run, reachable_init.
    + by repeat split.
    + done.
  - destruct IH as (s & Hs & Hidle & Hid); [lia|].
    destruct (round_trip_idle_open s Hidle) as (Hidle' & Hid' & _).
    exists (run round_trip s).1. split_and!; [by apply reachable_run | done |].
    rewrite Hid', Hid, js_incr_exact; lia.
Qed.

Lemma js_incr_saturated : js_incr MAX_EXACT = MAX_EXACT.
Proof. unfold js_incr. by rewrite Z.ltb_irrefl. Qed.

(** Once the counter has reached [2^53], [++messageId] no longer changes it:
    the next two requests are both sent with identifier [2^53]. *)
Lemma overflow_resends :
  ∃ s, reachable s ∧ messageId s = MAX_EXACT ∧
       sent_ids (run (round_trip ++ round_trip) s).2 = [MAX_EXACT; MAX_EXACT].
Proof.
  pose proof MAX_EXACT_pos as Hpos.
  destruct (counter_reachable (Z.to_nat MAX_EXACT)) as (s & Hs & Hidle & Hid).
  { rewrite Z2Nat.id; lia. }
  rewrite Z2Nat.id in Hid by lia.
  exists s. split_and!; [done | done |].
  destruct (round_trip_idle_open s Hidle) as (Hidle1 & Hid1 & Hsent1).
  destruct (round_trip_idle_open _ Hidle1) as (_ & _ & Hsent2).
  rewrite run_app. cbn [snd]. unfold sent_ids in *. rewrite omap_app.
  rewrite Hsent1, Hsent2, Hid1, Hid, !js_incr_saturated. done.
Qed.

(** C9, as stated without a bound on the counter, fails: after [2^53]
    requests two frames are sent with the same identifier. *)
Lemma C9_counterexample :
  ¬ (∀ s es, reachable s → StronglySorted Z.lt (sent_ids (run es s).2)).
Proof.
  intros Hclaim. destruct overflow_resends as (s & Hs & _ & Hsent).
  specialize (Hclaim s (round_trip ++ round_trip) Hs). rewrite Hsent in Hclaim.
  apply StronglySorted_inv in Hclaim as [_ Hall].
  apply Forall_inv in Hall. lia.
Qed.

(** C9: while the counter is below [2^53], a reaction advances it exactly
    when it takes a [sendRequest] body to its registration step, and then by
    exactly one; the identifier registered is the new counter value, it is
    larger than every key of the request table and not a key itself; and
    the identifiers of the frames sent during any run increase strictly, so
    no identifier is sent twice. *)
Theorem C9_identifiers_increase :
  (∀ s e, reachable s → messageId s < MAX_EXACT →
     if reaches_registration e s then
       messageId (step e s) = messageId s + 1 ∧
       messageHandlers s !! (messageId s + 1) = None ∧
       (∀ id h, messageHandlers s !! id = Some h → id < messageId s + 1) ∧
       ∃ h, messageHandlers (step e s) = <[messageId s + 1 := h]> (messageHandlers s)
     else
       messageId (step e s) = messageId s ∧
       ∀ id h, messageHandlers (step e s) !! id = Some h →
               messageHandlers s !! id = Some h) ∧
  (∀ s es, reachable s → messageId (run es s).1 < MAX_EXACT →
     messageId s ≤ messageId (run es s).1 ∧
     Forall (λ id, messageId s < id ≤ messageId (run es s).1) (sent_ids (run es s).2) ∧
     StronglySorted Z.lt (sent_ids (run es s).2) ∧
     NoDup (sent_ids (run es s).2)).
Proof.
  split; [intros s e; apply registration_step|].
  intros s es Hs Hbound.
  destruct (run_sent_ids es s Hs Hbound) as (Hle & Hall & Hsorted).
  split_and!; try done. by apply StronglySorted_lt_NoDup.
Qed.

Lemma C9_witness :
  (messageId (step (Ev_resume 0%nat) third_suspended) = 3 ∧
   messageHandlers third_suspended !! 3 = None ∧
   (∀ id h, messageHandlers third_suspended !! id = Some h → id < 3) ∧
   ∃ h, messageHandlers (step (Ev_resume 0%nat) third_suspended)
        = <[3 := h]> (messageHandlers third_suspended)) ∧
  (messageId init ≤ messageId two_pending ∧
   Forall (λ id, messageId init < id ≤ messageId two_pending) [1; 2] ∧
   StronglySorted Z.lt [1; 2] ∧ NoDup [1; 2]).
Proof.
  split.
  - apply (proj1 C9_identifiers_increase third_suspended (Ev_resume 0%nat));
      [apply reachable_step, two_pending_reachable | reflexivity].
  - apply (proj2 C9_identifiers_increase init
             [Call_sendRequest "first" (Serializable JNull); Ev_open 0%nat; Ev_resume 0%nat;
              Call_sendRequest "second" (Serializable JNull); Ev_resume 0%nat]);
      [apply reachable_init | reflexivity].
Defined.

(** ** Pending entries and their timers *)

Lemma OwnTimer_frame s s' :
  OwnTimer s → messageHandlers s' = messageHandlers s → timers s' = timers s →
  OwnTimer s'.
Proof. unfold OwnTimer. by intros H -> ->. Qed.

Lemma OwnTimer_step e s :
  ReqInv s → messageId s < MAX_EXACT → OwnTimer s → OwnTimer (step e s).
Proof.
  intros Hreq Hbound Hown. unfold step.
  destruct e as [|ty pl| |t|t d|t err|t|k|k]; simpl.
  - pose proof (openWebSocket_request_fields s) as (? & _ & _ & ? & _).
    destruct (openWebSocket s) as [[p s'] out]. by eapply OwnTimer_frame.
  - unfold sendRequest.
    pose proof (openWebSocket_request_fields (with_futures (futures s ++ [Pending]) s))
      as (? & _ & _ & ? & _).
    destruct (openWebSocket _) as [[p s'] out]. by eapply OwnTimer_frame.
  - unfold closeWebSocket. destruct (websocket s); by eapply OwnTimer_frame.
  - destruct (sockets s !! t) as [k|]; [|done].
    destruct (readyState k); try done; by eapply OwnTimer_frame.
  - destruct (sockets s !! t) as [k|]; [|done].
    destruct (is_open _); [|done].
    unfold _handleWebSocketMessage. destruct d as [|m]; [done|].
    destruct (nullish m); [done|].
    destruct (matching_handler _ _) as [[id h]|]; [|done].
    destruct (response_outcome m); [|done]. unfold OwnTimer. simpl.
    intros tm h' Htm [_ Hold]%lookup_delete_Some. by apply Hown.
  - destruct (sockets s !! t) as [k|]; [|done]. by eapply OwnTimer_frame.
  - destruct (sockets s !! t) as [k|]; [|done]. by eapply OwnTimer_frame.
  - destruct (timers s !! k) as [tm|]; [|done].
    unfold timeout_callback. simpl.
    destruct (messageHandlers s !! tm_id tm); unfold OwnTimer; simpl.
    + intros tm' h' Htm' [_ Hold]%lookup_delete_Some.
      apply Hown; [by eapply list_elem_of_delete_inv | done].
    + intros tm' h' Htm' Hold. apply Hown; [by eapply list_elem_of_delete_inv | done].
  - unfold sendRequest_resume. destruct (awaiting s !! k) as [c|]; [|done].
    destruct (connects s !! sr_awaits c) as [[|v|r]|];
      [done | | by eapply OwnTimer_frame | done].
    unfold sendRequest_connected. simpl.
    destruct (websocket s) as [t|]; [|by eapply OwnTimer_frame].
    destruct (default false _); [|by eapply OwnTimer_frame].
    rewrite (js_incr_exact _ Hbound).
    assert (Hold : ∀ tm h, tm ∈ timers s →
              <[messageId s + 1 := sr_future c]> (messageHandlers s) !! tm_id tm = Some h →
              h = tm_future tm).
    { intros tm h Htm Hh. destruct (req_timer_meta s Hreq tm Htm) as (? & _ & _).
      rewrite lookup_insert_ne in Hh by lia. by apply Hown. }
    destruct (sr_payload c); unfold OwnTimer; simpl; [|done].
    intros tm h [Htm | ->%list_elem_of_singleton]%elem_of_app Hh; [by apply Hold|].
    simpl in *. rewrite lookup_insert_eq in Hh. by simplify_eq.
Qed.

Lemma reachable_OwnTimer s : reachable s → messageId s < MAX_EXACT → OwnTimer s.
Proof.
  induction 1 as [|s e Hs IH]; intros Hbound.
  { intros tm h Htm. by apply elem_of_nil in Htm. }
  destruct (reachable_Inv s Hs) as [_ Hreq].
  pose proof (step_counter_mono e s Hreq).
  apply OwnTimer_step; [done | lia | apply IH; lia].
Qed.

Lemma round_trip_registers s :
  idle_open s →
  messageHandlers (run round_trip s).1
    = <[js_incr (messageId s) := length (futures s)]> (messageHandlers s) ∧
  futures (run round_trip s).1 = futures s ++ [Pending].
Proof.
  intros (Hw & Hk & Hp & Hc & Ha). unfold round_trip.
  rewrite !run_step. unfold step. cbn [react run fst snd].
  rewrite (sendRequest_existing s 0%nat) by done. cbn [fst snd].
  rewrite (sendRequest_resume_sends _ 0%nat
             (mkSuspended (length (futures s)) 0%nat "ping" (Serializable JNull))
             JNull JUndefined 0%nat (mkSocket OPEN 0%nat));
    [| by simpl; rewrite ?Ha..].
  done.
Qed.

(** At counter [2^53], the entry of a pending request is overwritten when
    the next request registers under the same identifier. *)
Lemma overflow_replaces :
  ∃ s h h', reachable s ∧ h ≠ h' ∧
    messageHandlers s !! MAX_EXACT = Some h ∧
    messageHandlers (step (Ev_resume 0%nat) s) !! MAX_EXACT = Some h'.
Proof.
  pose proof MAX_EXACT_pos as Hpos.
  destruct (counter_reachable (Z.to_nat (MAX_EXACT - 1))) as (s0 & Hs0 & Hidle0 & Hid0).
  { rewrite Z2Nat.id; lia. }
  rewrite Z2Nat.id in Hid0 by lia.
  destruct (round_trip_idle_open s0 Hidle0) as (Hidle1 & Hid1 & _).
  destruct (round_trip_registers s0 Hidle0) as (Hm1 & Hf1).
  rewrite Hid0, js_incr_exact in Hid1, Hm1 by lia.
  replace (MAX_EXACT - 1 + 1) with MAX_EXACT in Hid1, Hm1 by lia.
  set (s1 := (run round_trip s0).1) in *.
  destruct Hidle1 as (Hw1 & Hk1 & Hp1 & Hc1 & Ha1).
  exists (step (Call_sendRequest "ping" (Serializable JNull)) s1),
         (length (futures s0)), (length (futures s1)).
  split_and!.
  - by apply reachable_step, reachable_run.
  - rewrite Hf1, length_app. simpl. lia.
  - unfold step. cbn [react]. rewrite (sendRequest_existing s1 0%nat) by done.
    simpl. rewrite Hm1. apply lookup_insert_eq.
  - unfold step. cbn [react]. rewrite (sendRequest_existing s1 0%nat) by done.
    cbn [fst snd].
    rewrite (sendRequest_resume_sends _ 0%nat
               (mkSuspended (length (futures s1)) 0%nat "ping" (Serializable JNull))
               JNull JUndefined 0%nat (mkSocket OPEN 0%nat));
      [| by simpl; rewrite ?Ha1..].
    simpl. rewrite Hid1, js_incr_saturated. apply lookup_insert_eq.
Qed.

(** C8, as stated without a bound on the counter, fails: at counter [2^53]
    the entry of a pending request loses its handler to the registration of
    the next request, which is neither a response nor its timeout. *)
Lemma C8_counterexample :
  ¬ (∀ s e id h,
       reachable s → messageHandlers s !! id = Some h →
       messageHandlers (step e s) !! id ≠ Some h →
       (∃ t m, e = Ev_message t (Parsed m) ∧ member m "id" = JInt id) ∨
       (∃ k tm, e = Ev_timer k ∧ timers s !! k = Some tm ∧
                tm_id tm = id ∧ tm_future tm = h)).
Proof.
  intros Hclaim. destruct overflow_replaces as (s & h & h' & Hs & Hne & Hh & Hh').
  destruct (Hclaim s (Ev_resume 0%nat) MAX_EXACT h Hs Hh) as
    [(t & m & He & _) | (k & tm & He & _)]; [congruence | done | done].
Qed.

(** C8: a transport [error] or [close] event and [closeWebSocket] leave the
    request table, the requests' promises and their timers as they were;
    and, while the counter is below [2^53], whenever an entry is in the
    table before a reaction and afterwards its key is absent or holds
    another handler, the reaction was a message carrying that key as its
    [id] or the firing of the entry's own timer. *)
Theorem C8_disconnect_keeps_pending :
  (∀ s e, disconnects e = true →
     messageHandlers (step e s) = messageHandlers s ∧
     futures (step e s) = futures s ∧ timers (step e s) = timers s) ∧
  (∀ s e id h,
     reachable s → messageId s < MAX_EXACT →
     messageHandlers s !! id = Some h →
     messageHandlers (step e s) !! id ≠ Some h →
     (∃ t m, e = Ev_message t (Parsed m) ∧ member m "id" = JInt id) ∨
     (∃ k tm, e = Ev_timer k ∧ timers s !! k = Some tm ∧
              tm_id tm = id ∧ tm_future tm = h)).
Proof.
  split.
  - intros s e He. unfold step. destruct e as [|ty pl| |t|t d|t err|t|k|k]; try done; simpl.
    + unfold closeWebSocket. by destruct (websocket s).
    + by destruct (sockets s !! t).
    + by destruct (sockets s !! t).
  - intros s e id h Hs Hbound Hh.
    pose proof (reachable_OwnTimer s Hs Hbound) as Hown.
    destruct (reachable_Inv s Hs) as [_ Hreq].
    unfold step. destruct e as [|ty pl| |t|t d|t err|t|k|k]; simpl.
    + pose proof (openWebSocket_request_fields s) as (Hm & _).
      destruct (openWebSocket s) as [[p s'] out]. simpl in *. congruence.
    + unfold sendRequest.
      pose proof (openWebSocket_request_fields (with_futures (futures s ++ [Pending]) s))
        as (Hm & _).
      destruct (openWebSocket _) as [[p s'] out]. simpl in *. congruence.
    + unfold closeWebSocket. destruct (websocket s); simpl; congruence.
    + destruct (sockets s !! t) as [k|]; [|simpl; congruence].
      destruct (readyState k); simpl; congruence.
    + destruct (sockets s !! t) as [k|]; [|simpl; congruence].
      destruct (is_open _); [|simpl; congruence].
      unfold _handleWebSocketMessage. destruct d as [|m]; [simpl; congruence|].
      destruct (nullish m); [simpl; congruence|].
      destruct (matching_handler _ _) as [[id' h']|] eqn:Hmatch; [|simpl; congruence].
      apply matching_handler_Some in Hmatch as (Hid & _ & _).
      destruct (response_outcome m); [|simpl; congruence]. simpl.
      destruct (decide (id' = id)) as [->|Hne].
      * intros _. left. by exists t, m.
      * rewrite lookup_delete_ne by done. congruence.
    + destruct (sockets s !! t); simpl; congruence.
    + destruct (sockets s !! t); simpl; congruence.
    + destruct (timers s !! k) as [tm|] eqn:Hk; [|simpl; congruence].
      unfold timeout_callback. simpl.
      destruct (messageHandlers s !! tm_id tm); [|simpl; congruence]. simpl.
      destruct (decide (tm_id tm = id)) as [Heq|Hne].
      * intros _. right. exists k, tm. split_and!; try done.
        symmetry. apply Hown; [by eapply list_elem_of_lookup_2 | by rewrite Heq].
      * rewrite lookup_delete_ne by done. congruence.
    + unfold sendRequest_resume. destruct (awaiting s !! k) as [c|]; [|simpl; congruence].
      destruct (connects s !! sr_awaits c) as [[|v|r]|]; try (simpl; congruence).
      unfold sendRequest_connected. simpl.
      destruct (websocket s) as [t|]; [|simpl; congruence].
      destruct (default false _); [|simpl; congruence].
      pose proof (req_keys s Hreq id h Hh).
      rewrite (js_incr_exact _ Hbound).
      destruct (sr_payload c); simpl; rewrite lookup_insert_ne by lia; congruence.
Qed.

Lemma C8_witness :
  (messageHandlers (step Call_closeWebSocket two_pending) = messageHandlers two_pending ∧
   futures (step Call_closeWebSocket two_pending) = futures two_pending ∧
   timers (step Call_closeWebSocket two_pending) = timers two_pending) ∧
  ((∃ t m, Ev_timer 1%nat = Ev_message t (Parsed m) ∧ member m "id" = JInt 2) ∨
   (∃ k tm, Ev_timer 1%nat = Ev_timer k ∧ timers two_pending !! k = Some tm ∧
            tm_id tm = 2 ∧ tm_future tm = 1%nat)).
Proof.
  split.
  - apply (proj1 C8_disconnect_keeps_pending two_pending Call_closeWebSocket). reflexivity.
  - apply (proj2 C8_disconnect_keeps_pending two_pending (Ev_timer 1%nat) 2 1%nat);
      [apply two_pending_reachable | reflexivity | reflexivity | discriminate].
Defined.

(** C3, as stated, fails: a frame whose [error] field is the empty string
    has an [error] field, yet the pending promise is fulfilled, not
    rejected. *)
Lemma C3_counterexample :
  ¬ (∀ s id h fields e,
       reachable s → messageHandlers s !! id = Some h →
       futures s !! h = Some Pending →
       own_property "id" fields = Some (JInt id) →
       own_property "error" fields = Some e →
       futures (_handleWebSocketMessage (Parsed (JObj fields)) s).1 !! h
         = Some (Rejected (NewError e))).
Proof.
  intros Hclaim.
  specialize (Hclaim two_pending 1 0%nat [("id", JInt 1); ("error", JStr "")] (JStr "")
                two_pending_reachable).
  discriminate Hclaim; reflexivity.
Qed.

(** C3: for a frame whose [id] has an entry in the table with its promise
    still pending, the handler deletes the entry and settles the promise: if
    the frame's [error] field is truthy and converts to a string (as every
    non-empty string does), the promise is rejected with the [Error] built
    from that field's value; if the field is absent or falsy, the promise is
    fulfilled with the frame's [payload] field, which is [undefined] when
    the frame has none. *)
Theorem C3_settlement_by_error_field s id h fields :
  reachable s → messageHandlers s !! id = Some h →
  futures s !! h = Some Pending →
  own_property "id" fields = Some (JInt id) →
  let s' := (_handleWebSocketMessage (Parsed (JObj fields)) s).1 in
  (∀ e, own_property "error" fields = Some e →
        truthy e = true → to_string_throws e = false →
        futures s' !! h = Some (Rejected (NewError e)) ∧
        messageHandlers s' !! id = None) ∧
  (∀ text, own_property "error" fields = Some (JStr text) → text ≠ "" →
        futures s' !! h = Some (Rejected (NewError (JStr text))) ∧
        messageHandlers s' !! id = None) ∧
  (∀ e, own_property "error" fields = Some e → truthy e = false →
        futures s' !! h = Some (Fulfilled (default JUndefined (own_property "payload" fields))) ∧
        messageHandlers s' !! id = None) ∧
  (own_property "error" fields = None →
        futures s' !! h = Some (Fulfilled (default JUndefined (own_property "payload" fields))) ∧
        messageHandlers s' !! id = None).
Proof.
  intros [_ Hreq]%reachable_Inv Hh Hpend Hid s'.
  assert (id ≠ 0) by (pose proof (req_keys s Hreq id h Hh); lia).
  assert (Hmember : member (JObj fields) "id" = JInt id) by (simpl; by rewrite Hid).
  assert (Hsettle : ∀ o, response_outcome (JObj fields) = Some o →
            futures s' !! h = Some o ∧ messageHandlers s' !! id = None).
  { intros o Ho. unfold s'. rewrite (handle_matching (JObj fields) id h o) by done.
    simpl. split; [by apply settle_pending | apply lookup_delete_eq]. }
  assert (Hgeneral : ∀ e, own_property "error" fields = Some e →
            truthy e = true → to_string_throws e = false →
            futures s' !! h = Some (Rejected (NewError e)) ∧
            messageHandlers s' !! id = None).
  { intros e He Ht Hc. apply Hsettle. unfold response_outcome. simpl.
    by rewrite He; simpl; rewrite Ht, Hc. }
  split_and!.
  - exact Hgeneral.
  - intros text He Htext. apply Hgeneral; [done | | done].
    simpl. by destruct text.
  - intros e He Ht. apply Hsettle. unfold response_outcome. simpl.
    by rewrite He; simpl; rewrite Ht.
  - intros He. apply Hsettle. unfold response_outcome. simpl. by rewrite He.
Qed.

Lemma C3_witness :
  let failure := [("id", JInt 1); ("error", JStr "denied")] in
  let success := [("id", JInt 2)] in
  futures (_handleWebSocketMessage (Parsed (JObj failure)) two_pending).1 !! 0%nat
    = Some (Rejected (NewError (JStr "denied"))) ∧
  futures (_handleWebSocketMessage (Parsed (JObj success)) two_pending).1 !! 1%nat
    = Some (Fulfilled JUndefined) ∧
  messageHandlers (_handleWebSocketMessage (Parsed (JObj success)) two_pending).1 !! 2 = None.
Proof.
  intros failure success.
  destruct (C3_settlement_by_error_field two_pending 1 0%nat failure)
    as (Hrej & _ & _ & _);
    [apply two_pending_reachable | reflexivity | reflexivity | reflexivity |].
  destruct (C3_settlement_by_error_field two_pending 2 1%nat success)
    as (_ & _ & _ & Hful);
    [apply two_pending_reachable | reflexivity | reflexivity | reflexivity |].
  split_and!.
  - apply (Hrej (JStr "denied")); reflexivity.
  - apply Hful. reflexivity.
  - apply Hful. reflexivity.
Defined.

(** ** Further properties of the message handler *)

(** X1: a message that cannot be attributed to a pending request leaves the
    whole state as it is.  That covers text that does not parse, [null], a
    value without [id], an [id] that is not a number or is 0, and an
    identifier that has no entry; the handler only logs. *)
Theorem X1_unattributable_message_dropped d s :
  (∀ m id, d = Parsed m → member m "id" = JInt id →
           id = 0 ∨ messageHandlers s !! id = None) →
  _handleWebSocketMessage d s = (s, [msg_received; drop_log d]).
Proof.
  intros Hno. unfold _handleWebSocketMessage, drop_log.
  destruct d as [|m]; [done|].
  destruct (nullish m); [done|].
  destruct (matching_handler _ _) as [[id h]|] eqn:Hmatch; [|done].
  apply matching_handler_Some in Hmatch as (Hid & Hnz & Hh).
  destruct (Hno m id eq_refl Hid) as [? | Hnone]; [done | congruence].
Qed.

Lemma X1_witness :
  _handleWebSocketMessage (Parsed (JObj [("id", JStr "1"); ("payload", JNull)])) two_pending
    = (two_pending, [msg_received; msg_unmatched]) ∧
  _handleWebSocketMessage (Parsed (JObj [("id", JInt 3)])) two_pending
    = (two_pending, [msg_received; msg_unmatched]) ∧
  _handleWebSocketMessage (Parsed JNull) two_pending
    = (two_pending, [msg_received; msg_failed]).
Proof.
  split_and!.
  - apply (X1_unattributable_message_dropped
             (Parsed (JObj [("id", JStr "1"); ("payload", JNull)])) two_pending).
    intros m id [= <-] Hid. discriminate Hid.
  - apply (X1_unattributable_message_dropped (Parsed (JObj [("id", JInt 3)])) two_pending).
    intros m id [= <-] [= <-]. right. reflexivity.
  - apply (X1_unattributable_message_dropped (Parsed JNull) two_pending).
    intros m id [= <-] Hid. discriminate Hid.
Defined.

(** X2: handling the same frame twice is the same as handling it once: the
    first delivery deletes the entry, so the duplicate finds no handler. *)
Theorem X2_duplicate_delivery_idempotent m s :
  deliver [m; m] s = deliver [m] s.
Proof.
  unfold deliver. cbn [foldl].
  destruct (_handleWebSocketMessage (Parsed m) s) as [s1 out] eqn:Hfirst.
  cbn [fst]. unfold _handleWebSocketMessage in *.
  destruct (nullish m) eqn:Hnull; [by simplify_eq|].
  destruct (matching_handler (messageHandlers s) _) as [[id h]|] eqn:Hmatch.
  - pose proof Hmatch as Hagain.
    apply matching_handler_Some in Hmatch as (Hid & Hnz & Hh).
    destruct (response_outcome m) as [o|] eqn:Ho; simplify_eq.
    + simpl. rewrite Hid. unfold matching_handler. simpl.
      rewrite lookup_delete_eq. simpl. by destruct (negb _).
    + by rewrite Hagain.
  - simplify_eq. by rewrite Hmatch.
Qed.



(** ** Further properties of sendRequest *)

(** X4: the defensive guard of [sendRequest].  When a suspended body
    continues after its connection promise was fulfilled but the handle is
    null by then, or refers to a transport that is not open, the request's
    promise is rejected with "WebSocket is not connected."; no identifier is
    allocated, no handler registered, no timer armed and nothing is sent. *)
Theorem X4_not_connected_guard s k c v :
  reachable s → awaiting s !! k = Some c →
  connects s !! sr_awaits c = Some (Fulfilled v) →
  (websocket s = None ∨
   ∃ t sock, websocket s = Some t ∧ sockets s !! t = Some sock ∧ readyState sock ≠ OPEN) →
  futures (step (Ev_resume k) s) !! sr_future c
    = Some (Rejected (NewError (JStr "WebSocket is not connected."))) ∧
  messageHandlers (step (Ev_resume k) s) = messageHandlers s ∧
  messageId (step (Ev_resume k) s) = messageId s ∧
  timers (step (Ev_resume k) s) = timers s ∧
  awaiting (step (Ev_resume k) s) = delete k (awaiting s) ∧
  (react (Ev_resume k) s).2 = [].
Proof.
  intros [_ Hreq]%reachable_Inv Hk Hc Hgone.
  assert (Hpend : futures s !! sr_future c = Some Pending).
  { apply (req_await_pending s Hreq). by eapply list_elem_of_lookup_2. }
  assert (Hres : react (Ev_resume k) s =
    (with_futures
       (settle (sr_future c) (Rejected (NewError (JStr "WebSocket is not connected.")))
          (futures s))
       (with_awaiting (delete k (awaiting s)) s), [])).
  { cbn [react]. unfold sendRequest_resume. rewrite Hk, Hc.
    unfold sendRequest_connected. cbn [websocket sockets with_awaiting].
    destruct Hgone as [-> | (t & sock & -> & -> & Hnot)]; [done|].
    simpl. by destruct (readyState sock). }
  unfold step. rewrite Hres. simpl. split_and!; try done. by apply settle_pending.
Qed.

Lemma X4_witness :
  futures (step (Ev_resume 0%nat) closed_before_resume) !! 1%nat
    = Some (Rejected (NewError (JStr "WebSocket is not connected."))) ∧
  messageHandlers (step (Ev_resume 0%nat) closed_before_resume)
    = messageHandlers closed_before_resume ∧
  messageId (step (Ev_resume 0%nat) closed_before_resume) = messageId closed_before_resume ∧
  timers (step (Ev_resume 0%nat) closed_before_resume) = timers closed_before_resume ∧
  awaiting (step (Ev_resume 0%nat) closed_before_resume) = [] ∧
  (react (Ev_resume 0%nat) closed_before_resume).2 = [].
Proof.
  apply (X4_not_connected_guard closed_before_resume 0%nat
           (mkSuspended 1%nat 0%nat "second" (Serializable JNull)) JUndefined);
    [apply reachable_run, reachable_init | reflexivity | reflexivity | by left].
Defined.

(** X5: a payload that [JSON.stringify] cannot encode.  The identifier has
    already been allocated and the handler registered when the encoding
    throws, so: the counter is advanced, the entry is in the table, the
    request's promise is rejected with the [TypeError], nothing is sent and
    no timer is armed.  A later frame with that identifier, if building the
    [Error] for a truthy [error] field does not throw, removes the entry and
    leaves the rejected promise as it is. *)
Theorem X5_unencodable_payload s k c v t sock e :
  reachable s → awaiting s !! k = Some c →
  connects s !! sr_awaits c = Some (Fulfilled v) →
  websocket s = Some t → sockets s !! t = Some sock → readyState sock = OPEN →
  sr_payload c = Unserializable e →
  let id := js_incr (messageId s) in
  let s' := step (Ev_resume k) s in
  messageId s' = id ∧
  messageHandlers s' = <[id := sr_future c]> (messageHandlers s) ∧
  futures s' !! sr_future c = Some (Rejected (TypeError e)) ∧
  timers s' = timers s ∧
  (react (Ev_resume k) s).2 = [] ∧
  (∀ m, member m "id" = JInt id → to_string_throws (member m "error") = false →
        futures (_handleWebSocketMessage (Parsed m) s').1 = futures s' ∧
        messageHandlers (_handleWebSocketMessage (Parsed m) s').1 !! id = None).
Proof.
  intros [_ Hreq]%reachable_Inv Hk Hc Hw Hsock Hopen Hpl id s'.
  assert (Hpend : futures s !! sr_future c = Some Pending).
  { apply (req_await_pending s Hreq). by eapply list_elem_of_lookup_2. }
  assert (Hres : react (Ev_resume k) s =
    (with_futures (settle (sr_future c) (Rejected (TypeError e)) (futures s))
       (with_handlers (<[id := sr_future c]> (messageHandlers s))
          (with_messageId id (with_awaiting (delete k (awaiting s)) s))), [])).
  { cbn [react]. unfold sendRequest_resume. rewrite Hk, Hc.
    unfold sendRequest_connected. cbn [websocket sockets with_awaiting].
    rewrite Hw, Hsock. cbn [fmap option_fmap option_map default compose].
    by rewrite Hopen, Hpl. }
  assert (Hs' : s' = (react (Ev_resume k) s).1) by done.
  rewrite Hres in Hs' |- *. simpl in Hs'.
  assert (Hrej : futures s' !! sr_future c = Some (Rejected (TypeError e))).
  { rewrite Hs'. simpl. by apply settle_pending. }
  assert (Hentry : messageHandlers s' !! id = Some (sr_future c)).
  { rewrite Hs'. simpl. apply lookup_insert_eq. }
  assert (id ≠ 0).
  { pose proof (js_incr_bounds _ (req_counter s Hreq)). unfold id. lia. }
  split_and!; try (by rewrite Hs'); try done.
  intros m Hm Hconv.
  rewrite (handle_matching m id (sr_future c) _ s' Hm ltac:(done) Hentry
             (response_outcome_convertible m Hconv)).
  simpl. split.
  - unfold settle. by rewrite Hrej.
  - apply lookup_delete_eq.
Qed.

Lemma X5_witness :
  let s' := step (Ev_resume 0%nat) cyclic_suspended in
  messageId s' = 1 ∧
  messageHandlers s' = <[1 := 0%nat]> (messageHandlers cyclic_suspended) ∧
  futures s' !! 0%nat = Some (Rejected (TypeError 0%nat)) ∧
  timers s' = timers cyclic_suspended ∧
  (react (Ev_resume 0%nat) cyclic_suspended).2 = [] ∧
  (∀ m, member m "id" = JInt 1 → to_string_throws (member m "error") = false →
        futures (_handleWebSocketMessage (Parsed m) s').1 = futures s' ∧
        messageHandlers (_handleWebSocketMessage (Parsed m) s').1 !! 1 = None).
Proof.
  apply (X5_unencodable_payload cyclic_suspended 0%nat
           (mkSuspended 0%nat 0%nat "save" (Unserializable 0%nat))
           JUndefined 0%nat (mkSocket OPEN 0%nat) 0%nat);
    [apply reachable_run, reachable_init | reflexivity..].
Defined.

(** X6: a complete round trip on an established connection, below [2^53].
    [sendRequest(type, payload)] followed by its continuation sends exactly
    one frame, [{ id, type, payload }] with the next identifier, on the
    current transport; when the response with that identifier and no truthy
    [error] arrives, the promise that [sendRequest] returned is fulfilled
    with the response's payload, and the request table and the list of
    suspended bodies are again what they were before the call. *)
Theorem X6_round_trip s p x t sock type v m :
  reachable s → messageId s < MAX_EXACT →
  connectionPromise s = Some p → connects s !! p = Some (Fulfilled x) →
  websocket s = Some t → sockets s !! t = Some sock → readyState sock = OPEN →
  member m "id" = JInt (messageId s + 1) → truthy (member m "error") = false →
  let returned := (sendRequest type (Serializable v) s).1.1 in
  let r := run [Call_sendRequest type (Serializable v);
                Ev_resume (length (awaiting s));
                Ev_message t (Parsed m)] s in
  sent_frames r.2 = [(t, mkFrame (messageId s + 1) type v)] ∧
  futures r.1 !! returned = Some (Fulfilled (member m "payload")) ∧
  messageHandlers r.1 = messageHandlers s ∧
  awaiting r.1 = awaiting s ∧
  messageId r.1 = messageId s + 1.
Proof.
  intros [_ Hreq]%reachable_Inv Hbound Hp Hc Hw Hsock Hopen Hid Herr returned r.
  assert (Hfresh : messageHandlers s !! (messageId s + 1) = None).
  { destruct (messageHandlers s !! (messageId s + 1)) as [h|] eqn:Hh; [|done].
    pose proof (req_keys s Hreq _ _ Hh). lia. }
  assert (messageId s + 1 ≠ 0) by (pose proof (req_counter s Hreq); lia).
  unfold returned, r. rewrite !run_step. unfold step. cbn [react run fst snd].
  rewrite (sendRequest_existing s p) by done. cbn [fst snd].
  rewrite (sendRequest_resume_sends _ (length (awaiting s))
             (mkSuspended (length (futures s)) p type (Serializable v)) v x t sock);
    [| by simpl; rewrite ?lookup_snoc_last..].
  cbn [fst snd with_timers with_handlers with_messageId with_awaiting with_futures
       sockets awaiting messageId messageHandlers timers futures
       sr_future sr_type].
  rewrite Hsock, Hopen. cbn [is_open].
  rewrite js_incr_exact by done.
  rewrite (handle_matching m (messageId s + 1) (length (futures s))
             (Fulfilled (member m "payload")));
    [| done | done | simpl; apply lookup_insert_eq
     | by unfold response_outcome; rewrite Herr].
  simpl. split_and!.
  - done.
  - apply settle_pending, lookup_snoc_last.
  - rewrite delete_insert_eq. by apply delete_id.
  - apply delete_snoc_last.
  - done.
Qed.

Lemma X6_witness :
  let reply := JObj [("id", JInt 3); ("payload", JStr "done")] in
  let r := run [Call_sendRequest "third" (Serializable (JStr "x"));
                Ev_resume 0%nat; Ev_message 0%nat (Parsed reply)] two_pending in
  sent_frames r.2 = [(0%nat, mkFrame 3 "third" (JStr "x"))] ∧
  futures r.1 !! 2%nat = Some (Fulfilled (JStr "done")) ∧
  messageHandlers r.1 = messageHandlers two_pending ∧
  awaiting r.1 = awaiting two_pending ∧
  messageId r.1 = 3.
Proof.
  intros reply.
  apply (X6_round_trip two_pending 0%nat JUndefined 0%nat (mkSocket OPEN 0%nat)
           "third" (JStr "x") reply);
    [apply two_pending_reachable | reflexivity..].
Defined.

(** ** Further properties of the connection *)

(** X7: [closeWebSocket] with a handle calls [close()] on that transport and
    nulls both module variables, but it settles no connection promise: a
    promise that was pending stays pending.  The next [openWebSocket]
    creates a new transport. *)
Theorem X7_close_with_handle s t :
  websocket s = Some t →
  let s' := (closeWebSocket s).1 in
  (closeWebSocket s).2 =
    [Console LLog "Manually closing WebSocket connection."; WsClose t] ∧
  websocket s' = None ∧ connectionPromise s' = None ∧
  connects s' = connects s ∧
  (∀ sock, sockets s !! t = Some sock ∧ readyState sock = OPEN →
           sockets s' !! t = Some (mkSocket CLOSING (attempt sock))) ∧
  (∀ t', t' ≠ t → sockets s' !! t' = sockets s !! t') ∧
  created (openWebSocket s').2 = [length (sockets s)].
Proof.
  intros Hw s'.
  assert (Hs' : closeWebSocket s =
    (with_connection None None (with_sockets (alter close_socket t (sockets s)) s),
     [Console LLog "Manually closing WebSocket connection."; WsClose t])).
  { unfold closeWebSocket. by rewrite Hw. }
  unfold s'. rewrite Hs'. cbn [fst snd]. split_and!; try done.
  - intros sock [Hsock Hopen]. simpl. rewrite list_lookup_alter_eq, Hsock. simpl.
    unfold close_socket. by rewrite Hopen.
  - intros t' Hne. simpl. by rewrite list_lookup_alter_ne.
  - rewrite openWebSocket_fresh by done. simpl. by rewrite length_alter.
Qed.

Lemma X7_witness :
  let s' := (closeWebSocket two_pending).1 in
  (closeWebSocket two_pending).2 =
    [Console LLog "Manually closing WebSocket connection."; WsClose 0%nat] ∧
  websocket s' = None ∧ connectionPromise s' = None ∧
  connects s' = connects two_pending ∧
  sockets s' !! 0%nat = Some (mkSocket CLOSING 0%nat) ∧
  created (openWebSocket s').2 = [1%nat].
Proof.
  destruct (X7_close_with_handle two_pending 0%nat) as (Hout & Hw & Hp & Hc & Hs & _ & Hnew);
    [reflexivity|].
  split_and!; [exact Hout | exact Hw | exact Hp | exact Hc | | exact Hnew].
  apply (Hs (mkSocket OPEN 0%nat)). split; reflexivity.
Defined.

(** X8: the [close] and [error] handlers do not look at which transport the
    event comes from.  An event of any transport ever created nulls
    [websocket] and [connectionPromise], also when the handle refers to a
    newer transport; that transport is left as it is, and the next
    [openWebSocket] creates yet another one. *)
Theorem X8_event_of_any_transport s t sock e :
  sockets s !! t = Some sock →
  (e = Ev_close t ∨ ∃ error, e = Ev_error t error) →
  websocket (step e s) = None ∧ connectionPromise (step e s) = None ∧
  (∀ t', t' ≠ t → sockets (step e s) !! t' = sockets s !! t') ∧
  created (openWebSocket (step e s)).2 = [length (sockets s)].
Proof.
  intros Hsock He.
  assert (Hstep : websocket (step e s) = None ∧ connectionPromise (step e s) = None ∧
                  sockets (step e s) =
                    alter (λ k, mkSocket CLOSED (attempt k)) t (sockets s)).
  { destruct He as [-> | [error ->]]; unfold step; simpl; by rewrite Hsock. }
  destruct Hstep as (Hw & Hp & Hs). split_and!; try done.
  - intros t' Hne. rewrite Hs. by apply list_lookup_alter_ne.
  - rewrite openWebSocket_fresh by done. simpl. by rewrite Hs, length_alter.
Qed.

Lemma X8_witness :
  websocket replaced_connection = Some 1%nat ∧
  websocket (step (Ev_close 0%nat) replaced_connection) = None ∧
  connectionPromise (step (Ev_close 0%nat) replaced_connection) = None ∧
  sockets (step (Ev_close 0%nat) replaced_connection) !! 1%nat
    = Some (mkSocket OPEN 1%nat) ∧
  created (openWebSocket (step (Ev_close 0%nat) replaced_connection)).2 = [2%nat].
Proof.
  destruct (X8_event_of_any_transport replaced_connection 0%nat
              (mkSocket CLOSING 0%nat) (Ev_close 0%nat)) as (Hw & Hp & Hs & Hnew);
    [reflexivity | by left |].
  split_and!; [reflexivity | exact Hw | exact Hp | | exact Hnew].
  rewrite (Hs 1%nat) by lia. reflexivity.
Defined.

(** X9: a successful connect.  From a state without connection promise,
    [openWebSocket] followed by the [open] event of the transport it created
    leaves the handle on that transport, now OPEN, and the promise that
    [openWebSocket] returned fulfilled (with no value). *)
Theorem X9_connect_establishes s :
  reachable s → connectionPromise s = None →
  let returned := (openWebSocket s).1.1 in
  let r := (run [Call_openWebSocket; Ev_open (length (sockets s))] s).1 in
  websocket r = Some (length (sockets s)) ∧
  sockets r !! length (sockets s) = Some (mkSocket OPEN returned) ∧
  connectionPromise r = Some returned ∧
  connects r !! returned = Some (Fulfilled JUndefined).
Proof.
  intros [Hconn _]%reachable_Inv Hp returned r.
  assert (Hw : websocket s = None) by by apply (conn_both s Hconn).
  unfold returned, r. rewrite !run_step. unfold step. cbn [react run fst snd].
  rewrite (openWebSocket_fresh s Hw Hp).
  cbn [fst snd sockets with_connection with_sockets with_connects].
  rewrite lookup_snoc_last. cbn [readyState attempt].
  unfold onopen, set_readyState. simpl. split_and!; try done.
  - rewrite list_lookup_alter_eq, lookup_snoc_last. done.
  - apply settle_pending, lookup_snoc_last.
Qed.

Lemma X9_witness :
  let s := step (Ev_close 0%nat) two_pending in
  let r := (run [Call_openWebSocket; Ev_open 1%nat] s).1 in
  websocket r = Some 1%nat ∧
  sockets r !! 1%nat = Some (mkSocket OPEN 1%nat) ∧
  connectionPromise r = Some 1%nat ∧
  connects r !! 1%nat = Some (Fulfilled JUndefined).
Proof.
  intros s.
  apply (X9_connect_establishes s);
    [apply reachable_step, two_pending_reachable | reflexivity].
Defined.

(** X10: in every reachable state each key of the request table is an
    identifier between 1 and the counter, and the counter is at most [2^53].
    Identifiers start at 1 because the counter is incremented before use, so
    the truthiness test on [message.id] never hides an entry: a frame whose
    [id] is a key of the table always finds its handler.  No two keys hold
    the same promise. *)
Theorem X10_table_keys s id h :
  reachable s → messageHandlers s !! id = Some h →
  1 ≤ id ≤ messageId s ∧ messageId s ≤ MAX_EXACT ∧
  matching_handler (messageHandlers s) (JInt id) = Some (id, h) ∧
  (∀ id', messageHandlers s !! id' = Some h → id' = id).
Proof.
  intros [_ Hreq]%reachable_Inv Hh.
  pose proof (req_keys s Hreq id h Hh). pose proof (req_counter s Hreq).
  split_and!; try lia.
  - apply matching_handler_JInt; [lia | done].
  - intros id' Hh'. by eapply (req_inj s Hreq).
Qed.

Lemma X10_witness :
  1 ≤ 2 ≤ messageId two_pending ∧ messageId two_pending ≤ MAX_EXACT ∧
  matching_handler (messageHandlers two_pending) (JInt 2) = Some (2, 1%nat) ∧
  (∀ id', messageHandlers two_pending !! id' = Some 1%nat → id' = 2).
Proof.
  apply (X10_table_keys two_pending 2 1%nat); [apply two_pending_reachable | reflexivity].
Defined.

(** ** Isolation between requests *)

(** X11: whatever a message carries, handling it leaves alone every pending
    request other than the one its [id] names: the entry stays in the table
    and its promise is not touched.  The counter, the timers, the suspended
    bodies and the connection are never changed by the message handler. *)
Theorem X11_delivery_leaves_others s d j h :
  reachable s → messageHandlers s !! j = Some h →
  (∀ m, d = Parsed m → member m "id" ≠ JInt j) →
  let s' := (_handleWebSocketMessage d s).1 in
  messageHandlers s' !! j = Some h ∧ futures s' !! h = futures s !! h ∧
  messageId s' = messageId s ∧ timers s' = timers s ∧ awaiting s' = awaiting s ∧
  websocket s' = websocket s ∧ connectionPromise s' = connectionPromise s ∧
  connects s' = connects s ∧ sockets s' = sockets s.
Proof.
  intros [_ Hreq]%reachable_Inv Hh Hother s'. unfold s', _handleWebSocketMessage.
  destruct d as [|m]; [done|].
  destruct (nullish m); [done|].
  destruct (matching_handler _ _) as [[id h']|] eqn:Hmatch; [|done].
  apply matching_handler_Some in Hmatch as (Hid & _ & Hh').
  assert (id ≠ j) by (intros ->; by apply (Hother m)).
  destruct (response_outcome m); [|done].
  simpl. split_and!; try done.
  - by rewrite lookup_delete_ne.
  - apply settle_lookup_ne. intros ->. by apply H, (req_inj s Hreq id j h).
Qed.

Lemma X11_witness :
  let reply := Parsed (JObj [("id", JInt 1); ("error", JStr "denied")]) in
  let s' := (_handleWebSocketMessage reply two_pending).1 in
  messageHandlers s' !! 2 = Some 1%nat ∧
  futures s' !! 1%nat = futures two_pending !! 1%nat ∧
  messageId s' = messageId two_pending ∧ timers s' = timers two_pending ∧
  awaiting s' = awaiting two_pending ∧
  websocket s' = websocket two_pending ∧
  connectionPromise s' = connectionPromise two_pending ∧
  connects s' = connects two_pending ∧ sockets s' = sockets two_pending.
Proof.
  intros reply.
  apply (X11_delivery_leaves_others two_pending reply 2 1%nat);
    [apply two_pending_reachable | reflexivity |].
  intros m [= <-] Hid. discriminate Hid.
Defined.

(** X12: the timeout of one request leaves alone every pending request with
    another identifier: the entry stays, its promise is not touched, and
    its own timer stays armed. *)
Theorem X12_timeout_leaves_others s k tm j h :
  reachable s → timers s !! k = Some tm →
  messageHandlers s !! j = Some h → j ≠ tm_id tm →
  let s' := step (Ev_timer k) s in
  messageHandlers s' !! j = Some h ∧ futures s' !! h = futures s !! h ∧
  timers s' = delete k (timers s) ∧
  (∀ tm', tm' ∈ timers s → tm_future tm' = h → tm' ∈ timers s') ∧
  messageId s' = messageId s.
Proof.
  intros [_ Hreq]%reachable_Inv Hk Hh Hj s'.
  assert (Hin : tm ∈ timers s) by by eapply list_elem_of_lookup_2.
  assert (Hne : tm_future tm ≠ h).
  { intros <-. apply Hj. by apply (req_timer_key s Hreq tm j). }
  assert (Htimers : timers s' = delete k (timers s)).
  { unfold s', step. simpl. rewrite Hk. unfold timeout_callback. simpl.
    by destruct (messageHandlers s !! tm_id tm). }
  split_and!; try done.
  - unfold s', step. simpl. rewrite Hk. unfold timeout_callback. simpl.
    destruct (messageHandlers s !! tm_id tm); simpl; [|done].
    by rewrite lookup_delete_ne.
  - unfold s', step. simpl. rewrite Hk. unfold timeout_callback. simpl.
    destruct (messageHandlers s !! tm_id tm); simpl; [|done].
    by apply settle_lookup_ne.
  - intros tm' [i Hi]%list_elem_of_lookup_1 Hf. rewrite Htimers.
    assert (i ≠ k) by (intros ->; congruence).
    destruct (decide (i < k)%nat).
    + apply (list_elem_of_lookup_2 _ i). by rewrite list_lookup_delete_lt.
    + apply (list_elem_of_lookup_2 _ (pred i)).
      rewrite list_lookup_delete_ge by lia. by replace (S (pred i)) with i by lia.
  - unfold s', step. simpl. rewrite Hk. unfold timeout_callback. simpl.
    by destruct (messageHandlers s !! tm_id tm).
Qed.

Lemma X12_witness :
  let s' := step (Ev_timer 0%nat) two_pending in
  messageHandlers s' !! 2 = Some 1%nat ∧
  futures s' !! 1%nat = futures two_pending !! 1%nat ∧
  timers s' = delete 0%nat (timers two_pending) ∧
  (∀ tm', tm' ∈ timers two_pending → tm_future tm' = 1%nat → tm' ∈ timers s') ∧
  messageId s' = messageId two_pending.
Proof.
  apply (X12_timeout_leaves_others two_pending 0%nat (mkTimer 30000 1 "first" 0%nat) 2 1%nat);
    [apply two_pending_reachable | reflexivity | reflexivity | simpl; lia].
Defined.

(** ** What the module never does *)

(** X13: a frame is handed to [websocket.send] only by a [sendRequest] body
    that has passed its guards: the transport is the current handle and it
    is OPEN, the frame carries the identifier just allocated, and that
    identifier is a key of the table after the reaction.  A reaction sends
    at most one frame. *)
Theorem X13_send_only_when_open e s t fr :
  (t, fr) ∈ sent_frames (react e s).2 →
  reaches_registration e s = true ∧
  websocket s = Some t ∧
  (∃ sock, sockets s !! t = Some sock ∧ readyState sock = OPEN) ∧
  f_id fr = js_incr (messageId s) ∧ messageId (step e s) = f_id fr ∧
  is_Some (messageHandlers (step e s) !! f_id fr) ∧
  sent_frames (react e s).2 = [(t, fr)].
Proof.
  unfold step. destruct e as [|ty pl| |t0|t0 d|t0 err|t0|k|k]; simpl.
  - unfold openWebSocket, executor.
    destruct (connectionPromise s); [by intros ?%elem_of_nil|].
    destruct (executor_branch _); simpl; by intros ?%elem_of_nil.
  - unfold sendRequest, openWebSocket, executor. simpl.
    destruct (connectionPromise s); [by intros ?%elem_of_nil|].
    destruct (executor_branch _); simpl; by intros ?%elem_of_nil.
  - unfold closeWebSocket. destruct (websocket s); simpl; by intros ?%elem_of_nil.
  - destruct (sockets s !! t0) as [k|]; [|by intros ?%elem_of_nil].
    destruct (readyState k); simpl; by intros ?%elem_of_nil.
  - destruct (sockets s !! t0) as [k|]; [|by intros ?%elem_of_nil].
    destruct (is_open _); [|by intros ?%elem_of_nil].
    unfold _handleWebSocketMessage. destruct d as [|m]; [by intros ?%elem_of_nil|].
    destruct (nullish m); [by intros ?%elem_of_nil|].
    destruct (matching_handler _ _) as [[id h]|]; [|by intros ?%elem_of_nil].
    destruct (response_outcome m); simpl; by intros ?%elem_of_nil.
  - destruct (sockets s !! t0); simpl; by intros ?%elem_of_nil.
  - destruct (sockets s !! t0); simpl; by intros ?%elem_of_nil.
  - destruct (timers s !! k) as [tm|]; [|by intros ?%elem_of_nil].
    unfold timeout_callback. simpl.
    destruct (messageHandlers s !! tm_id tm); simpl; by intros ?%elem_of_nil.
  - unfold sendRequest_resume. destruct (awaiting s !! k) as [c|]; [|by intros ?%elem_of_nil].
    destruct (connects s !! sr_awaits c) as [[|v|r]|]; try (by intros ?%elem_of_nil).
    unfold sendRequest_connected. simpl.
    destruct (websocket s) as [t1|]; [|by intros ?%elem_of_nil].
    destruct (sockets s !! t1) as [sock|] eqn:Hsock; simpl; [|by intros ?%elem_of_nil].
    destruct (readyState sock) eqn:Hready; simpl; try (by intros ?%elem_of_nil).
    destruct (sr_payload c); simpl; [|by intros ?%elem_of_nil].
    intros [= -> ->]%list_elem_of_singleton. simpl.
    split_and!; try done.
    + by exists sock.
    + rewrite lookup_insert_eq. by eexists.
Qed.

Lemma X13_witness :
  reaches_registration (Ev_resume 0%nat) third_suspended = true ∧
  websocket third_suspended = Some 0%nat ∧
  (∃ sock, sockets third_suspended !! 0%nat = Some sock ∧ readyState sock = OPEN) ∧
  f_id (mkFrame 3 "third" JNull) = js_incr (messageId third_suspended) ∧
  messageId (step (Ev_resume 0%nat) third_suspended) = f_id (mkFrame 3 "third" JNull) ∧
  is_Some (messageHandlers (step (Ev_resume 0%nat) third_suspended)
             !! f_id (mkFrame 3 "third" JNull)) ∧
  sent_frames (react (Ev_resume 0%nat) third_suspended).2
    = [(0%nat, mkFrame 3 "third" JNull)].
Proof.
  apply (X13_send_only_when_open (Ev_resume 0%nat) third_suspended 0%nat
           (mkFrame 3 "third" JNull)).
  vm_compute. left.
Defined.

(** X14: a transport is created only by [openWebSocket], called directly or
    from [sendRequest], and only when there is no connection promise: the
    reaction then creates exactly one, for [WSS_URL], makes it the handle
    and installs a new connection promise. *)
Theorem X14_create_only_without_promise e s t :
  t ∈ created (react e s).2 →
  connectionPromise s = None ∧
  (e = Call_openWebSocket ∨ ∃ type payload, e = Call_sendRequest type payload) ∧
  (react e s).2 =
    [Console LLog "Attempting to connect to WebSocket:"; NewWebSocket WSS_URL t] ∧
  t = length (sockets s) ∧
  websocket (step e s) = Some t ∧
  connectionPromise (step e s) = Some (length (connects s)).
Proof.
  unfold step. destruct e as [|ty pl| |t0|t0 d|t0 err|t0|k|k]; simpl.
  - unfold openWebSocket, executor.
    destruct (connectionPromise s); [by intros ?%elem_of_nil|].
    destruct (executor_branch _); simpl; try (by intros ?%elem_of_nil).
    intros ->%list_elem_of_singleton. split_and!; eauto.
  - unfold sendRequest, openWebSocket, executor. simpl.
    destruct (connectionPromise s); [by intros ?%elem_of_nil|].
    destruct (executor_branch _); simpl; try (by intros ?%elem_of_nil).
    intros ->%list_elem_of_singleton. split_and!; eauto.
  - unfold closeWebSocket. destruct (websocket s); simpl; by intros ?%elem_of_nil.
  - destruct (sockets s !! t0) as [k|]; [|by intros ?%elem_of_nil].
    destruct (readyState k); simpl; by intros ?%elem_of_nil.
  - destruct (sockets s !! t0) as [k|]; [|by intros ?%elem_of_nil].
    destruct (is_open _); [|by intros ?%elem_of_nil].
    unfold _handleWebSocketMessage. destruct d as [|m]; [by intros ?%elem_of_nil|].
    destruct (nullish m); [by intros ?%elem_of_nil|].
    destruct (matching_handler _ _) as [[id h]|]; [|by intros ?%elem_of_nil].
    destruct (response_outcome m); simpl; by intros ?%elem_of_nil.
  - destruct (sockets s !! t0); simpl; by intros ?%elem_of_nil.
  - destruct (sockets s !! t0); simpl; by intros ?%elem_of_nil.
  - destruct (timers s !! k) as [tm|]; [|by intros ?%elem_of_nil].
    unfold timeout_callback. simpl.
    destruct (messageHandlers s !! tm_id tm); simpl; by intros ?%elem_of_nil.
  - unfold sendRequest_resume. destruct (awaiting s !! k) as [c|]; [|by intros ?%elem_of_nil].
    destruct (connects s !! sr_awaits c) as [[|v|r]|]; try (by intros ?%elem_of_nil).
    unfold sendRequest_connected. simpl.
    destruct (websocket s) as [t1|]; [|by intros ?%elem_of_nil].
    destruct (default false _); [|by intros ?%elem_of_nil].
    destruct (sr_payload c); simpl; by intros ?%elem_of_nil.
Qed.

Lemma X14_witness :
  connectionPromise init = None ∧
  (Call_sendRequest "getToken" (Serializable JNull) = Call_openWebSocket ∨
   ∃ type payload,
     Call_sendRequest "getToken" (Serializable JNull) = Call_sendRequest type payload) ∧
  (react (Call_sendRequest "getToken" (Serializable JNull)) init).2 =
    [Console LLog "Attempting to connect to WebSocket:"; NewWebSocket WSS_URL 0%nat] ∧
  0%nat = length (sockets init) ∧
  websocket (step (Call_sendRequest "getToken" (Serializable JNull)) init) = Some 0%nat ∧
  connectionPromise (step (Call_sendRequest "getToken" (Serializable JNull)) init)
    = Some (length (connects init)).
Proof.
  apply (X14_create_only_without_promise
           (Call_sendRequest "getToken" (Serializable JNull)) init 0%nat).
  vm_compute. left.
Defined.

(** ** Several requests, one connection *)

(** Calls of [sendRequest] while a connection promise exists: each one only
    creates its promise and suspends on the existing connection promise. *)
Lemma calls_existing reqs s p :
  connectionPromise s = Some p →
  (run (calls reqs) s).2 = [] ∧
  connectionPromise (run (calls reqs) s).1 = Some p ∧
  websocket (run (calls reqs) s).1 = websocket s ∧
  sockets (run (calls reqs) s).1 = sockets s ∧
  connects (run (calls reqs) s).1 = connects s ∧
  messageHandlers (run (calls reqs) s).1 = messageHandlers s ∧
  messageId (run (calls reqs) s).1 = messageId s ∧
  ∃ l, awaiting (run (calls reqs) s).1 = awaiting s ++ l ∧
       (λ c, (sr_type c, sr_payload c)) <$> l = reqs ∧
       Forall (λ c, sr_awaits c = p) l.
Proof.
  revert s. induction reqs as [|[ty pl] reqs IH]; intros s Hp.
  { simpl. split_and!; try done. exists []. by rewrite app_nil_r. }
  unfold calls in *. rewrite fmap_cons, run_step. unfold step. cbn [react fst snd].
  rewrite (sendRequest_existing s p) by done. cbn [fst snd].
  destruct (IH (with_awaiting
                  (awaiting s ++ [mkSuspended (length (futures s)) p ty pl])
                  (with_futures (futures s ++ [Pending]) s)))
    as (Hout & Hp' & Hw & Hs & Hc & Hm & Hi & l & Ha & Hl & Hall); [done|].
  rewrite Hout, Hp', Hw, Hs, Hc, Hm, Hi, Ha. simpl. split_and!; try done.
  exists (mkSuspended (length (futures s)) p ty pl :: l). split_and!.
  - by rewrite <- app_assoc.
  - rewrite fmap_cons. cbn [sr_type sr_payload]. by rewrite Hl.
  - by constructor.
Qed.

(** X15: several [sendRequest] calls issued before any connection exists
    share one connection attempt.  The first call creates the one transport;
    every call suspends on that attempt's promise, in call order and with
    its own arguments; until the connection is established no identifier is
    allocated and nothing is sent. *)
Theorem X15_requests_share_one_attempt s first rest :
  reachable s → connectionPromise s = None →
  let r := run (calls (first :: rest)) s in
  created r.2 = [length (sockets s)] ∧
  sent_frames r.2 = [] ∧
  connectionPromise r.1 = Some (length (connects s)) ∧
  connects r.1 !! length (connects s) = Some Pending ∧
  messageHandlers r.1 = messageHandlers s ∧ messageId r.1 = messageId s ∧
  ∃ l, awaiting r.1 = awaiting s ++ l ∧
       (λ c, (sr_type c, sr_payload c)) <$> l = first :: rest ∧
       Forall (λ c, sr_awaits c = length (connects s)) l.
Proof.
  intros [Hconn _]%reachable_Inv Hp r.
  assert (Hw : websocket s = None) by by apply (conn_both s Hconn).
  destruct first as [ty pl]. unfold r, calls. rewrite fmap_cons, run_step.
  unfold step. cbn [react fst snd]. unfold sendRequest.
  rewrite openWebSocket_fresh by done. cbn [fst snd].
  fold (calls rest).
  match goal with |- context [run (calls rest) ?s1] =>
    destruct (calls_existing rest s1 (length (connects s)))
      as (Hout & Hp' & _ & _ & Hc & Hm & Hi & l & Ha & Hl & Hall); [done|]
  end.
  rewrite Hout, Hp', Hc, Hm, Hi, Ha. simpl. split_and!; try done.
  - apply lookup_snoc_last.
  - exists (mkSuspended (length (futures s)) (length (connects s)) ty pl :: l).
    split_and!.
    + by rewrite <- app_assoc.
    + rewrite fmap_cons. cbn [sr_type sr_payload]. by rewrite Hl.
    + by constructor.
Qed.

Lemma X15_witness :
  let r := run (calls [("a", Serializable JNull); ("b", Serializable (JInt 5))]) init in
  created r.2 = [0%nat] ∧
  sent_frames r.2 = [] ∧
  connectionPromise r.1 = Some 0%nat ∧
  connects r.1 !! 0%nat = Some Pending ∧
  messageHandlers r.1 = messageHandlers init ∧ messageId r.1 = messageId init ∧
  ∃ l, awaiting r.1 = awaiting init ++ l ∧
       (λ c, (sr_type c, sr_payload c)) <$> l
         = [("a", Serializable JNull); ("b", Serializable (JInt 5))] ∧
       Forall (λ c, sr_awaits c = 0%nat) l.
Proof.
  apply (X15_requests_share_one_attempt init ("a", Serializable JNull)
           [("b", Serializable (JInt 5))]);
    [apply reachable_init | reflexivity].
Defined.

(** ** An error field that cannot be converted *)

Lemma to_string_throws_truthy v : to_string_throws v = true → truthy v = true.
Proof. by destruct v. Qed.

(** X16: a frame for a pending request whose [error] field cannot be
    converted to a string (an object with a property [toString] of its own,
    or an array holding one) makes [new Error(message.error)] throw before
    [reject] is called: the handler lands in its [catch] block and only
    logs.  The entry stays in the table and the promise stays as it was, so
    the request is still subject to its timeout. *)
Theorem X16_unconvertible_error_dropped s id h m :
  reachable s → messageHandlers s !! id = Some h →
  member m "id" = JInt id → to_string_throws (member m "error") = true →
  _handleWebSocketMessage (Parsed m) s = (s, [msg_received; msg_failed]).
Proof.
  intros [_ Hreq]%reachable_Inv Hh Hid Hthrows.
  assert (id ≠ 0) by (pose proof (req_keys s Hreq id h Hh); lia).
  apply (handle_throwing m id h); try done.
  unfold response_outcome.
  by rewrite (to_string_throws_truthy _ Hthrows), Hthrows.
Qed.

Lemma X16_witness :
  _handleWebSocketMessage
    (Parsed (JObj [("id", JInt 1); ("error", JObj [("toString", JInt 1)])])) two_pending
    = (two_pending, [msg_received; msg_failed]) ∧
  _handleWebSocketMessage
    (Parsed (JObj [("id", JInt 2);
                   ("error", JArr [JStr "a"; JObj [("toString", JNull)]])])) two_pending
    = (two_pending, [msg_received; msg_failed]).
Proof.
  split.
  - apply (X16_unconvertible_error_dropped two_pending 1 0%nat);
      [apply two_pending_reachable | reflexivity..].
  - apply (X16_unconvertible_error_dropped two_pending 2 1%nat);
      [apply two_pending_reachable | reflexivity..].
Defined.
